(** * The syntax-string parser (src/svg-parser/syntax-string-parser.ts)

    A shallow embedding of the grammar interpreter and the properties of
    its matching engine.

    The source is TypeScript; what runs is the JavaScript left after the
    types are erased.  Calls bind their arguments by position, a
    parameter that receives no argument is [undefined], and reading a
    property that an object does not have gives [undefined].  The
    embedding follows that run-time behaviour: every call site passes its
    arguments in the order in which the source lists them.

    Two resources bound an execution of the model:
    - [depth], the number of nested activations of
      [processTokenValidator] that the call stack can hold; when it is
      used up the engine raises a [RangeError];
    - [steps], the number of iterations granted to each [while (true)]
      loop.  The program has no such limit: an execution that answers
      [OutOfSteps] for every value of [steps] is one that never ends. *)

From Stdlib Require Import ZArith Ascii String List Lia.
From stdpp Require Import base option gmap strings.
Import ListNotations.

Set Warnings "-register-all".

Local Open Scope string_scope.
Local Open Scope list_scope.

(** ** Numbers at index positions

    [currentIndex], [latestCurrentIndex], [startIndex] and [endIndex]
    hold an integer, [NaN], or [undefined] (a missing argument or a
    missing property). *)

Inductive idx : Type :=
  | Undef
  | NaN
  | Num (z : Z).

(** [i + 1]: [undefined] converts to [NaN]. *)
Definition add1 (i : idx) : idx :=
  match i with
  | Num z => Num (z + 1)
  | _ => NaN
  end.

(** [i - 1]. *)
Definition sub1 (i : idx) : idx :=
  match i with
  | Num z => Num (z - 1)
  | _ => NaN
  end.

(** [i + k] for a number [k]. *)
Definition plus (i : idx) (k : Z) : idx :=
  match i with
  | Num z => Num (z + k)
  | _ => NaN
  end.

(** [a >= b] of JavaScript: false as soon as one side is not a number. *)
Definition geb (a b : idx) : bool :=
  match a, b with
  | Num x, Num y => (y <=? x)%Z
  | _, _ => false
  end.

(** What the [tokenType] position holds: a rule name, or an index when a
    caller passes [currentIndex] in that position. *)
Inductive tag : Type :=
  | Name (s : string)
  | Index (i : idx).

(** ** Values returned by the processors

    [AST<TokenTypes> | false], together with the bare arrays that the
    combination branch returns and the [undefined] of a missing
    property. *)

Inductive jsval : Type :=
  | Undefined
  | JFalse
  | Str (s : string)
  | Node (startIndex endIndex : idx) (tokenType : tag) (value : jsval)
  | Arr (items : list jsval).

(** [if (v)]: objects and arrays are truthy, also the empty array. *)
Definition truthy (v : jsval) : bool :=
  match v with
  | Undefined | JFalse => false
  | Str s => negb (String.eqb s "")
  | Node _ _ _ _ | Arr _ => true
  end.

(** [const { endIndex } = resultAst]. *)
Definition prop_endIndex (v : jsval) : idx :=
  match v with
  | Node _ e _ _ => e
  | _ => Undef
  end.

Definition prop_startIndex (v : jsval) : idx :=
  match v with
  | Node s _ _ _ => s
  | _ => Undef
  end.

Definition prop_value (v : jsval) : jsval :=
  match v with
  | Node _ _ _ x => x
  | _ => Undefined
  end.

Definition prop_tokenType (v : jsval) : option tag :=
  match v with
  | Node _ _ t _ => Some t
  | _ => None
  end.

(** [const { consumedString, newCurrentIndex } = result]: no value of the
    program carries either property, so both come out [undefined]. *)
Definition prop_consumedString (v : jsval) : jsval :=
  match v with
  | _ => Undefined
  end.

Definition prop_newCurrentIndex (v : jsval) : idx :=
  match v with
  | _ => Undef
  end.

(** ** Outcomes of a call *)

Inductive error : Type :=
  | TypeError    (* reading a property of [undefined] *)
  | RangeError.  (* the call stack is exhausted *)

Inductive outcome (A : Type) : Type :=
  | Ret (a : A)
  | Throw (e : error)
  | OutOfSteps.

Arguments Ret {A} a.
Arguments Throw {A} e.
Arguments OutOfSteps {A}.

Definition bind {A B : Type} (m : outcome A) (k : A -> outcome B) : outcome B :=
  match m with
  | Ret a => k a
  | Throw e => Throw e
  | OutOfSteps => OutOfSteps
  end.

Notation "'let*' x ':=' m 'in' k" := (bind m (fun x => k))
  (at level 10, x pattern, m at level 100, k at level 200).

(** ** Grammars *)

(** A [RegExp] of the grammar tables is one character class, written as
    inclusive ranges: [/[0-9]/] is [[("0","9")]], [/[eE]/] is
    [[("e","e");("E","E")]].  Patterns that match more than one
    character, the empty string, or only at an anchor are not covered:
    what is proved of [PROCESS_REGEX] is proved for class patterns. *)
Record RegExp : Type := { ranges : list (ascii * ascii) }.

Inductive TokenProcessorOptionTypes : Type :=
  | ZERO_OR_MORE   (* '*' *)
  | ONE_OR_MORE    (* '+' *)
  | ZERO_OR_ONE.   (* '?' *)

(** [TokenTypes | RegExp | TokenValidatorOptionsConfig | TokenValidator[]] *)
Inductive TokenValidator : Type :=
  | TokenType (name : string)
  | Pattern (re : RegExp)
  | OptionsConfig (value : TokenValidator) (opt : TokenProcessorOptionTypes)
  | Combination (members : list TokenValidator).

Record GrammarMapTokenTypeDescriptor : Type :=
  { options : list TokenValidator }.

(** The grammar map is an object used as a dictionary from rule names to
    descriptors; its own keys are the rules. *)
Abbreviation BaseGrammarMapType := (gmap string GrammarMapTokenTypeDescriptor).

(** The map is a plain object, so [grammarMap[name]] also finds the names
    that every object inherits from [Object.prototype]: eleven functions
    and, under [__proto__], the prototype itself.  None of them has a
    property [options]. *)
Definition Object_prototype_names : list string :=
  ["constructor"; "__defineGetter__"; "__defineSetter__"; "hasOwnProperty";
   "__lookupGetter__"; "__lookupSetter__"; "isPrototypeOf";
   "propertyIsEnumerable"; "toString"; "valueOf"; "__proto__";
   "toLocaleString"].

Definition inherited (name : string) : bool :=
  existsb (String.eqb name) Object_prototype_names.

Record Grammar : Type :=
  { entry : string;
    map : BaseGrammarMapType }.

(** A position of [PROCESS_REGEX] whose caller may pass anything. *)
Inductive any : Type :=
  | AnyIndex (i : idx)
  | AnyValidator (v : TokenValidator)
  | AnyMap (m : BaseGrammarMapType).

(** ** Strings and patterns *)

Fixpoint drop_chars (n : nat) (s : string) : string :=
  match n, s with
  | O, _ => s
  | S _, EmptyString => EmptyString
  | S k, String _ rest => drop_chars k rest
  end.

(** [s.slice(start)]: a negative start counts from the end, [undefined]
    and [NaN] start at 0. *)
Definition slice (s : string) (start : idx) : string :=
  match start with
  | Num z =>
      if (z <? 0)%Z
      then drop_chars (Z.to_nat (Z.max (Z.of_nat (String.length s) + z) 0)) s
      else drop_chars (Z.to_nat z) s
  | _ => s
  end.

Definition in_class (re : RegExp) (c : ascii) : bool :=
  existsb (fun r => (nat_of_ascii (fst r) <=? nat_of_ascii c)%nat
                    && (nat_of_ascii c <=? nat_of_ascii (snd r))%nat)
          (ranges re).

(** [str.match(re)] for a class pattern without the [g] flag: the
    leftmost match anywhere in [str]; the result is [match[0]], which for
    such a pattern is one character. *)
Fixpoint string_match (str : string) (re : RegExp) : option string :=
  match str with
  | EmptyString => None
  | String c rest =>
      if in_class re c then Some (String c EmptyString)
      else string_match rest re
  end.

(** The pattern matches the input at the cursor itself. *)
Definition matches_at (re : RegExp) (s : string) (cursor : idx) : bool :=
  match slice s cursor with
  | EmptyString => false
  | String c _ => in_class re c
  end.

(** ** [PROCESS_REGEX] (lines 46-70) *)

Definition PROCESS_REGEX (syntaxString : string) (tokenType : tag)
    (tokenValidator : any) (_grammarMap : any) (currentIndex : idx) : jsval :=
  match tokenValidator with
  | AnyValidator (Pattern re) =>            (* tokenValidator instanceof RegExp *)
      let stringFromIndex := slice syntaxString currentIndex in
      match string_match stringFromIndex re with
      | Some consumedString =>
          Node currentIndex
               (plus currentIndex (Z.of_nat (String.length consumedString) - 1))
               tokenType
               (Str consumedString)
      | None => JFalse
      end
  | _ => JFalse
  end.

(** ** [TOKEN_VALIDATOR_OPTION_PROCESSORS] (lines 71-193)

    The processors call [processTokenValidator], which the source
    declares after them; here it is the variable of the section. *)

Section OptionProcessors.

Variable processTokenValidator :
  string -> tag -> TokenValidator -> option BaseGrammarMapType -> idx ->
  outcome jsval.

Section Processor.

Variables (syntaxString : string) (tokenType : tag)
          (tokenValidator : TokenValidator)
          (grammarMap : option BaseGrammarMapType).

(** The loop of lines 83-95, repeated word for word at lines 123-135.
    It leaves [latestCurrentIndex] and [results]. *)
Fixpoint while_true (steps : nat) (latestCurrentIndex : idx)
    (results : list jsval) : outcome (idx * list jsval) :=
  match steps with
  | O => OutOfSteps
  | S n =>
      let* resultAst :=
        processTokenValidator syntaxString tokenType tokenValidator
                              grammarMap latestCurrentIndex in
      if truthy resultAst
      then while_true n (add1 (prop_endIndex resultAst))
                      (results ++ [resultAst])
      else Ret (latestCurrentIndex, results)
  end.

Definition ZERO_OR_MORE_PROCESSOR (steps : nat) (currentIndex : idx)
    : outcome jsval :=
  let* st := while_true steps currentIndex [] in
  let latestCurrentIndex := fst st in
  let results := snd st in
  if (0 <? List.length results)%nat
  then Ret (Node currentIndex (sub1 latestCurrentIndex) tokenType
                 (Arr results))
  else Ret (Node currentIndex currentIndex tokenType (Str "")).

Definition ONE_OR_MORE_PROCESSOR (steps : nat) (currentIndex : idx)
    : outcome jsval :=
  let* st := while_true steps currentIndex [] in
  let latestCurrentIndex := fst st in
  let results := snd st in
  if (0 <? List.length results)%nat
  then Ret (Node currentIndex (sub1 latestCurrentIndex) tokenType
                 (Arr results))
  else Ret JFalse.

(** Lines 147-192: [for (let i = 0; i < 2; i++)], written out for
    [i = 0] and [i = 1]. *)
Definition ZERO_OR_ONE_PROCESSOR (currentIndex : idx) : outcome jsval :=
  (* i = 0 *)
  let* resultAst :=
    processTokenValidator syntaxString tokenType tokenValidator
                          grammarMap currentIndex in
  if truthy resultAst then
    let latestCurrentIndex := add1 (prop_endIndex resultAst) in
    let singleResult := resultAst in
    (* i = 1 *)
    let* resultAst' :=
      processTokenValidator syntaxString tokenType tokenValidator
                            grammarMap latestCurrentIndex in
    if truthy resultAst'
    then Ret JFalse          (* tooManyResults *)
    else Ret singleResult    (* ONE RESULT *)
  else
    (* ZERO RESULTS *)
    Ret (Node currentIndex currentIndex tokenType (Str "")).

(** [repeats c rs c']: started at cursor [c], the inner validator
    succeeds [length rs] times in a row, each attempt starting at the
    [endIndex + 1] of the one before; [rs] are the results in order and
    [c'] is the cursor of the next attempt. *)
Inductive repeats : idx -> list jsval -> idx -> Prop :=
  | repeats_nil : forall c, repeats c [] c
  | repeats_cons : forall c v rs c',
      processTokenValidator syntaxString tokenType tokenValidator
                            grammarMap c = Ret v ->
      truthy v = true ->
      repeats (add1 (prop_endIndex v)) rs c' ->
      repeats c (v :: rs) c'.

(** Started at [c], some attempt of the inner validator does not succeed:
    it returns a falsy value or raises. *)
Definition some_attempt_stops (c : idx) : Prop :=
  exists rs c',
    repeats c rs c' /\
    ((exists f, processTokenValidator syntaxString tokenType tokenValidator
                                      grammarMap c' = Ret f /\
                truthy f = false) \/
     (exists e, processTokenValidator syntaxString tokenType tokenValidator
                                      grammarMap c' = Throw e)).

End Processor.

Definition TOKEN_VALIDATOR_OPTION_PROCESSORS (opt : TokenProcessorOptionTypes)
    (steps : nat) (syntaxString : string) (tokenType : tag)
    (tokenValidator : TokenValidator)
    (grammarMap : option BaseGrammarMapType) (currentIndex : idx)
    : outcome jsval :=
  match opt with
  | ZERO_OR_MORE =>
      ZERO_OR_MORE_PROCESSOR syntaxString tokenType tokenValidator
                             grammarMap steps currentIndex
  | ONE_OR_MORE =>
      ONE_OR_MORE_PROCESSOR syntaxString tokenType tokenValidator
                            grammarMap steps currentIndex
  | ZERO_OR_ONE =>
      ZERO_OR_ONE_PROCESSOR syntaxString tokenType tokenValidator
                            grammarMap currentIndex
  end.

End OptionProcessors.

(** ** [processTokenValidator] (lines 195-263) *)

(** Lines 206-217: every member is processed with the [currentIndex] of
    the combination; the array of the results is returned as it is. *)
Fixpoint for_of_members (process : TokenValidator -> outcome jsval)
    (members : list TokenValidator) (resultList : list jsval)
    : outcome jsval :=
  match members with
  | [] => Ret (Arr resultList)
  | t :: rest =>
      let* result := process t in
      if truthy result
      then for_of_members process rest (resultList ++ [result])
      else Ret JFalse
  end.

(** Lines 252-262: the first truthy result is returned; when the options
    are used up the function falls through to [return false]. *)
Fixpoint for_of_options (process : TokenValidator -> outcome jsval)
    (opts : list TokenValidator) : outcome jsval :=
  match opts with
  | [] => Ret JFalse
  | t :: rest =>
      let* result := process t in
      if truthy result then Ret result else for_of_options process rest
  end.

Fixpoint processTokenValidator (depth steps : nat) (syntaxString : string)
    (tokenType : tag) (tokenValidator : TokenValidator)
    (grammarMap : option BaseGrammarMapType) (currentIndex : idx)
    : outcome jsval :=
  match depth with
  | O => Throw RangeError
  | S d =>
      match tokenValidator with
      | Combination members =>
          for_of_members
            (fun t => processTokenValidator d steps syntaxString tokenType t
                                            grammarMap currentIndex)
            members []
      | Pattern _ =>
          (* PROCESS_REGEX(syntaxString, tokenType, currentIndex, tokenValidator) *)
          let result :=
            PROCESS_REGEX syntaxString tokenType (AnyIndex currentIndex)
                          (AnyValidator tokenValidator) Undef in
          if truthy result
          then Ret (Node currentIndex (sub1 (prop_newCurrentIndex result))
                         tokenType (prop_consumedString result))
          else Ret JFalse
      | OptionsConfig t opt =>
          (* optionProcessor(syntaxString, currentIndex, t) *)
          let* result :=
            TOKEN_VALIDATOR_OPTION_PROCESSORS
              (processTokenValidator d steps) opt steps
              syntaxString (Index currentIndex) t None Undef in
          if truthy result
          then Ret (Node currentIndex (sub1 (prop_newCurrentIndex result))
                         tokenType (prop_consumedString result))
          else Ret JFalse
      | TokenType name =>
          (* const { options = [] } = grammarMap[tokenValidator] *)
          match grammarMap with
          | None => Throw TypeError
          | Some m =>
              match m !! name with
              | Some descriptor =>               (* an own key of the map *)
                  for_of_options
                    (fun t => processTokenValidator d steps syntaxString
                                (Name name) t grammarMap currentIndex)
                    (options descriptor)
              | None =>
                  if inherited name
                  then                           (* options = [] *)
                    for_of_options
                      (fun t => processTokenValidator d steps syntaxString
                                  (Name name) t grammarMap currentIndex)
                      []
                  else Throw TypeError           (* destructuring undefined *)
              end
          end
      end
  end.

(** ** [parseSyntaxString] (lines 265-269) *)

Definition parseSyntaxString (depth steps : nat) (syntaxString : string)
    (grammar : Grammar) : outcome jsval :=
  processTokenValidator depth steps syntaxString (Name (entry grammar))
                        (TokenType (entry grammar)) (Some (map grammar))
                        (Num 0).

(** ** Vocabulary of the statements *)

(** A run, as a function of the budget of its loops, comes to an end. *)
Definition ends (run : nat -> outcome jsval) : Prop :=
  exists steps, run steps <> OutOfSteps.

(** An inner matcher whose successes at a numeric cursor start at the
    cursor and end at a number not less than the cursor minus one. *)
Definition well_spanned
    (callee : string -> tag -> TokenValidator ->
              option BaseGrammarMapType -> idx -> outcome jsval) : Prop :=
  forall s tt tv gm z v,
    callee s tt tv gm (Num z) = Ret v -> truthy v = true ->
    prop_startIndex v = Num z /\
    exists e, prop_endIndex v = Num e /\ (z - 1 <= e)%Z.

(** Two outcomes of the same kind: both a success, both a failure, the
    same error, or both out of budget. *)
Definition alike (r r' : outcome jsval) : Prop :=
  match r, r' with
  | Ret v, Ret v' => truthy v = truthy v'
  | Throw e, Throw e' => e = e'
  | OutOfSteps, OutOfSteps => True
  | _, _ => False
  end.

(** [settled r r']: when [r] is an answer, [r'] is the same answer. *)
Definition settled {A : Type} (r r' : outcome A) : Prop :=
  r = OutOfSteps \/ r' = r.

(** The span invariant [endIndex >= startIndex - 1], with the comparison
    of JavaScript. *)
Definition span_ok (v : jsval) : bool :=
  geb (prop_endIndex v) (sub1 (prop_startIndex v)).

(** ** Sample grammars and inputs *)

Definition re_a : RegExp := {| ranges := [("a"%char, "a"%char)] |}.
Definition re_b : RegExp := {| ranges := [("b"%char, "b"%char)] |}.
Definition re_digit : RegExp := {| ranges := [("0"%char, "9"%char)] |}.

(** [{ r: { options: [[{ value: /a/, option: '?' }, { value: /b/, option: '?' }]] } }] *)
Definition pair_grammar : Grammar :=
  {| entry := "r";
     map := {[ "r" := {| options :=
                 [Combination [OptionsConfig (Pattern re_a) ZERO_OR_ONE;
                               OptionsConfig (Pattern re_b) ZERO_OR_ONE]] |} ]} |}.

(** [{ r: { options: [{ value: /a/, option: '?' }] } }] *)
Definition optional_grammar : Grammar :=
  {| entry := "r";
     map := {[ "r" := {| options :=
                 [OptionsConfig (Pattern re_a) ZERO_OR_ONE] |} ]} |}.

(** [{ r: { options: ['x'] }, x: { options: [{ value: /a/, option: '*' }] } }] *)
Definition nested_grammar : Grammar :=
  {| entry := "r";
     map := {[ "r" := {| options := [TokenType "x"] |};
               "x" := {| options :=
                 [OptionsConfig (Pattern re_a) ZERO_OR_MORE] |} ]} |}.

(** [{ r: { options: [/a/, { value: /a/, option: '*' }, 'missing'] } }] *)
Definition ordered_grammar : Grammar :=
  {| entry := "r";
     map := {[ "r" := {| options :=
                 [Pattern re_a;
                  OptionsConfig (Pattern re_a) ZERO_OR_MORE;
                  TokenType "missing"] |} ]} |}.

(** [{ r: { options: [{ value: [], option: '+' }] } }] *)
Definition looping_grammar : Grammar :=
  {| entry := "r";
     map := {[ "r" := {| options :=
                 [OptionsConfig (Combination []) ONE_OR_MORE] |} ]} |}.

(** [{ r: { options: [/a/] } }] *)
Definition terminal_grammar : Grammar :=
  {| entry := "r";
     map := {[ "r" := {| options := [Pattern re_a] |} ]} |}.

(** [{ r: { options: ['r'] } }] *)
Definition left_recursive_grammar : Grammar :=
  {| entry := "r";
     map := {[ "r" := {| options := [TokenType "r"] |} ]} |}.



(** An inner matcher for a processor taken on its own: it hands its
    arguments to [PROCESS_REGEX] in the order of that function's
    parameters. *)
Definition regex_matcher (syntaxString : string) (tokenType : tag)
    (tokenValidator : TokenValidator)
    (grammarMap : option BaseGrammarMapType) (currentIndex : idx)
    : outcome jsval :=
  Ret (PROCESS_REGEX syntaxString tokenType (AnyValidator tokenValidator)
                     (AnyIndex Undef) currentIndex).

(** ** The grammar of SVG polygon points (src/unnamed/part_000, lines 21-93) *)

Definition char_class (chars : list ascii) : RegExp :=
  {| ranges := List.map (fun c => (c, c)) chars |}.

Definition re_minus : RegExp := char_class ["-"%char].            (* /[-]/ *)
Definition re_comma : RegExp := char_class [","%char].            (* /[,]/ *)
Definition re_dot : RegExp := char_class ["."%char].              (* /\./ *)
Definition re_exponent : RegExp := char_class ["e"%char; "E"%char]. (* /[eE]/ *)
Definition re_sign : RegExp := char_class ["+"%char; "-"%char].   (* /[+-]/ *)
Definition re_space : RegExp := char_class [" "%char].            (* / / *)
Definition re_tab : RegExp := char_class [ascii_of_nat 9].        (* /\t/ *)
Definition re_newline : RegExp := char_class [ascii_of_nat 10].   (* /\n/ *)

Definition SVGPolygonPointsGrammarMap : BaseGrammarMapType :=
  list_to_map
    [("list_of_points",
      {| options :=
           [Combination [OptionsConfig (TokenType "wsp") ZERO_OR_MORE;
                         OptionsConfig (TokenType "coordinate_pairs") ZERO_OR_ONE;
                         OptionsConfig (TokenType "wsp") ZERO_OR_MORE]] |});
     ("coordinate_pairs",
      {| options :=
           [TokenType "coordinate_pair";
            Combination [TokenType "coordinate_pair"; TokenType "comma_wsp";
                         TokenType "coordinate_pairs"]] |});
     ("coordinate_pair",
      {| options :=
           [Combination [TokenType "coordinate"; TokenType "comma_wsp";
                         TokenType "coordinate"];
            Combination [TokenType "coordinate";
                         TokenType "negative_coordinate"]] |});
     ("coordinate", {| options := [TokenType "number"] |});
     ("number",
      {| options :=
           [Combination [OptionsConfig (TokenType "sign") ZERO_OR_ONE;
                         TokenType "integer_constant"];
            Combination [OptionsConfig (TokenType "sign") ZERO_OR_ONE;
                         TokenType "floating_point_constant"]] |});
     ("negative_coordinate",
      {| options :=
           [Combination [Pattern re_minus; TokenType "integer_constant"];
            Combination [Pattern re_minus;
                         TokenType "floating_point_constant"]] |});
     ("comma_wsp",
      {| options :=
           [Combination [OptionsConfig (TokenType "wsp") ONE_OR_MORE;
                         OptionsConfig (TokenType "comma") ZERO_OR_ONE;
                         OptionsConfig (TokenType "wsp") ZERO_OR_MORE];
            Combination [TokenType "comma";
                         OptionsConfig (TokenType "wsp") ZERO_OR_MORE]] |});
     ("comma", {| options := [Pattern re_comma] |});
     ("integer_constant", {| options := [TokenType "digit_sequence"] |});
     ("floating_point_constant",
      {| options :=
           [Combination [TokenType "fractional_constant";
                         OptionsConfig (TokenType "exponent") ZERO_OR_ONE];
            Combination [TokenType "digit_sequence";
                         TokenType "exponent"]] |});
     ("fractional_constant",
      {| options :=
           [Combination [OptionsConfig (TokenType "digit_sequence") ZERO_OR_ONE;
                         Pattern re_dot; TokenType "digit_sequence"];
            Combination [TokenType "digit_sequence"; Pattern re_dot]] |});
     ("exponent",
      {| options :=
           [Combination [Pattern re_exponent;
                         OptionsConfig (TokenType "sign") ZERO_OR_ONE;
                         TokenType "digit_sequence"]] |});
     ("sign", {| options := [Pattern re_sign] |});
     ("digit_sequence",
      {| options :=
           [TokenType "digit";
            Combination [TokenType "digit"; TokenType "digit_sequence"]] |});
     ("digit", {| options := [Pattern re_digit] |});
     ("wsp",
      {| options := [Pattern re_space; Pattern re_tab; Pattern re_newline] |})].

Definition SVGPolygonPointsGrammar : Grammar :=
  {| entry := "list_of_points";
     map := SVGPolygonPointsGrammarMap |}.

(** The rule names that a validator refers to. *)
Fixpoint references (tv : TokenValidator) : list string :=
  match tv with
  | TokenType name => [name]
  | Pattern _ => []
  | OptionsConfig t _ => references t
  | Combination members => List.concat (List.map references members)
  end.

(** ** More vocabulary *)

(** A result as the engine builds it at cursor [ci]: a node that starts
    at [ci], has [NaN] as its [endIndex] and no value, or an array of such
    results. *)
Inductive hollow (ci : idx) : jsval -> Prop :=
  | hollow_node : forall tt, hollow ci (Node ci NaN tt Undefined)
  | hollow_arr : forall items, Forall (hollow ci) items -> hollow ci (Arr items).

(** Every node of the result is tagged with the name of a rule that the
    map [m] declares. *)
Inductive rule_tagged (m : BaseGrammarMapType) : jsval -> Prop :=
  | rule_tagged_node : forall a b name x,
      is_Some (m !! name) -> rule_tagged m (Node a b (Name name) x)
  | rule_tagged_arr : forall items,
      Forall (rule_tagged m) items -> rule_tagged m (Arr items).

(** The character at position [n] of the input lies in the class. *)
Definition class_at (re : RegExp) (s : string) (n : nat) : bool :=
  match String.get n s with
  | Some c => in_class re c
  | None => false
  end.

(** * Properties *)

(** ** The repetition loop *)

Section LoopFacts.

Variable callee :
  string -> tag -> TokenValidator -> option BaseGrammarMapType -> idx ->
  outcome jsval.
Variables (s : string) (tt : tag) (tv : TokenValidator)
          (gm : option BaseGrammarMapType).

Lemma while_true_S (n : nat) (c : idx) (acc : list jsval) :
  while_true callee s tt tv gm (S n) c acc =
  let* r := callee s tt tv gm c in
  if truthy r
  then while_true callee s tt tv gm n (add1 (prop_endIndex r)) (acc ++ [r])
  else Ret (c, acc).
Proof. reflexivity. Qed.

(** When the attempt after [rs] successes fails, the loop stops there. *)
Lemma while_true_stops (c c' : idx) (rs : list jsval) (f : jsval) :
  repeats callee s tt tv gm c rs c' ->
  callee s tt tv gm c' = Ret f -> truthy f = false ->
  forall steps acc, (List.length rs < steps)%nat ->
    while_true callee s tt tv gm steps c acc = Ret (c', acc ++ rs).
Proof.
  intros Hrep Hf Hfalsy.
  induction Hrep as [c | c v rs c' Hv Htruthy Hrep IH]; intros steps acc Hlt.
  - destruct steps as [| n]; [simpl in Hlt; lia |].
    rewrite while_true_S, Hf. simpl. rewrite Hfalsy.
    now rewrite app_nil_r.
  - destruct steps as [| n]; [simpl in Hlt; lia |].
    rewrite while_true_S, Hv. simpl. rewrite Htruthy.
    rewrite (IH Hf n (acc ++ [v])) by (simpl in Hlt; lia).
    now rewrite <- app_assoc.
Qed.

(** When that attempt raises, so does the loop. *)
Lemma while_true_raises (c c' : idx) (rs : list jsval) (e : error) :
  repeats callee s tt tv gm c rs c' ->
  callee s tt tv gm c' = Throw e ->
  forall steps acc, (List.length rs < steps)%nat ->
    while_true callee s tt tv gm steps c acc = Throw e.
Proof.
  intros Hrep He.
  induction Hrep as [c | c v rs c' Hv Htruthy Hrep IH]; intros steps acc Hlt.
  - destruct steps as [| n]; [simpl in Hlt; lia |].
    now rewrite while_true_S, He.
  - destruct steps as [| n]; [simpl in Hlt; lia |].
    rewrite while_true_S, Hv. simpl. rewrite Htruthy.
    apply IH; [exact He | simpl in Hlt; lia].
Qed.

(** A budget that is used up before the loop stops. *)
Lemma while_true_short (c c' : idx) (rs : list jsval) :
  repeats callee s tt tv gm c rs c' ->
  forall steps acc, (steps <= List.length rs)%nat ->
    while_true callee s tt tv gm steps c acc = OutOfSteps.
Proof.
  intros Hrep.
  induction Hrep as [c | c v rs c' Hv Htruthy Hrep IH]; intros steps acc Hle.
  - destruct steps as [| n]; [reflexivity | simpl in Hle; lia].
  - destruct steps as [| n]; [reflexivity |].
    rewrite while_true_S, Hv. simpl. rewrite Htruthy.
    apply IH. simpl in Hle. lia.
Qed.

(** What a loop that came to an end went through. *)
Lemma while_true_ret_inv (steps : nat) :
  forall c acc c' out,
    while_true callee s tt tv gm steps c acc = Ret (c', out) ->
    exists rs f,
      out = acc ++ rs /\ repeats callee s tt tv gm c rs c' /\
      (List.length rs < steps)%nat /\
      callee s tt tv gm c' = Ret f /\ truthy f = false.
Proof.
  induction steps as [| n IH]; intros c acc c' out H; [discriminate |].
  rewrite while_true_S in H.
  destruct (callee s tt tv gm c) as [r | e |] eqn:Hr; simpl in H;
    try discriminate.
  destruct (truthy r) eqn:Ht.
  - apply IH in H. destruct H as (rs & f & -> & Hrep & Hlen & Hf & Hff).
    exists (r :: rs), f. repeat split; auto.
    + now rewrite <- app_assoc.
    + now apply repeats_cons.
    + simpl. lia.
  - injection H as <- <-. exists [], r. repeat split; auto.
    + now rewrite app_nil_r.
    + apply repeats_nil.
    + simpl. lia.
Qed.

Lemma while_true_throw_inv (steps : nat) :
  forall c acc e,
    while_true callee s tt tv gm steps c acc = Throw e ->
    exists rs c',
      repeats callee s tt tv gm c rs c' /\ callee s tt tv gm c' = Throw e.
Proof.
  induction steps as [| n IH]; intros c acc e H; [discriminate |].
  rewrite while_true_S in H.
  destruct (callee s tt tv gm c) as [r | e' |] eqn:Hr; simpl in H;
    try discriminate.
  - destruct (truthy r) eqn:Ht; [| discriminate].
    apply IH in H. destruct H as (rs & c' & Hrep & He).
    exists (r :: rs), c'. split; [now apply repeats_cons | exact He].
  - injection H as ->. exists [], c. split; [apply repeats_nil | exact Hr].
Qed.

(** The loop comes to an end exactly when some attempt does not succeed. *)
Lemma while_true_ends_iff (c : idx) :
  (exists steps, while_true callee s tt tv gm steps c [] <> OutOfSteps) <->
  some_attempt_stops callee s tt tv gm c.
Proof.
  split.
  - intros [steps H].
    destruct (while_true callee s tt tv gm steps c []) as [[c' out] | e |] eqn:Hw.
    + apply while_true_ret_inv in Hw.
      destruct Hw as (rs & f & _ & Hrep & _ & Hf & Hff).
      exists rs, c'. split; [exact Hrep | left; now exists f].
    + apply while_true_throw_inv in Hw. destruct Hw as (rs & c' & Hrep & He).
      exists rs, c'. split; [exact Hrep | right; now exists e].
    + now contradiction H.
  - intros (rs & c' & Hrep & [(f & Hf & Hff) | (e & He)]).
    + exists (S (List.length rs)).
      rewrite (while_true_stops c c' rs f Hrep Hf Hff) by lia. discriminate.
    + exists (S (List.length rs)).
      rewrite (while_true_raises c c' rs e Hrep He) by lia. discriminate.
Qed.

(** A validator that succeeds wherever the loop can take it keeps the
    loop running. *)
Lemma while_true_forever :
  (forall c, exists v, callee s tt tv gm c = Ret v /\ truthy v = true) ->
  forall steps c acc, while_true callee s tt tv gm steps c acc = OutOfSteps.
Proof.
  intros Hall steps. induction steps as [| n IH]; intros c acc; [reflexivity |].
  rewrite while_true_S. destruct (Hall c) as (v & Hv & Ht).
  rewrite Hv. simpl. rewrite Ht. apply IH.
Qed.

Lemma ZERO_OR_MORE_out_iff (steps : nat) (ci : idx) :
  ZERO_OR_MORE_PROCESSOR callee s tt tv gm steps ci = OutOfSteps <->
  while_true callee s tt tv gm steps ci [] = OutOfSteps.
Proof.
  unfold ZERO_OR_MORE_PROCESSOR.
  destruct (while_true callee s tt tv gm steps ci []) as [[l rs] | e |];
    simpl; [| split; intros; discriminate | tauto].
  destruct (0 <? List.length rs)%nat; split; intros; discriminate.
Qed.

Lemma ONE_OR_MORE_out_iff (steps : nat) (ci : idx) :
  ONE_OR_MORE_PROCESSOR callee s tt tv gm steps ci = OutOfSteps <->
  while_true callee s tt tv gm steps ci [] = OutOfSteps.
Proof.
  unfold ONE_OR_MORE_PROCESSOR.
  destruct (while_true callee s tt tv gm steps ci []) as [[l rs] | e |];
    simpl; [| split; intros; discriminate | tauto].
  destruct (0 <? List.length rs)%nat; split; intros; discriminate.
Qed.

End LoopFacts.

(** ** [PROCESS_REGEX] with its arguments in the order of its parameters *)

Lemma string_match_one_char (str : string) (re : RegExp) (m : string) :
  string_match str re = Some m -> String.length m = 1%nat.
Proof.
  induction str as [| c rest IH]; simpl; [discriminate |].
  destruct (in_class re c); [intros [= <-]; reflexivity | exact IH].
Qed.

(** A success starts at the cursor, ends at the cursor (one character
    is consumed) and satisfies the span invariant. *)
Lemma PROCESS_REGEX_span (s : string) (tt : tag) (v g : any) (z : Z) :
  truthy (PROCESS_REGEX s tt v g (Num z)) = true ->
  prop_startIndex (PROCESS_REGEX s tt v g (Num z)) = Num z /\
  prop_endIndex (PROCESS_REGEX s tt v g (Num z)) = Num z /\
  span_ok (PROCESS_REGEX s tt v g (Num z)) = true.
Proof.
  unfold PROCESS_REGEX.
  destruct v as [i | [name | re | t opt | members] | m]; try discriminate.
  destruct (string_match (slice s (Num z)) re) as [m |] eqn:Hm;
    [| discriminate].
  intros _. apply string_match_one_char in Hm.
  unfold span_ok. simpl. rewrite Hm.
  replace (z + (Z.of_nat 1 - 1))%Z with z by lia.
  split; [reflexivity | split; [reflexivity |]].
  apply Z.leb_le. lia.
Qed.

(** A pattern that matches at the cursor is accepted, and one character
    is consumed. *)
Lemma PROCESS_REGEX_at_cursor (s : string) (tt : tag) (re : RegExp)
    (g : any) (z : Z) :
  matches_at re s (Num z) = true ->
  exists c,
    PROCESS_REGEX s tt (AnyValidator (Pattern re)) g (Num z) =
    Node (Num z) (Num z) tt (Str (String c EmptyString)).
Proof.
  unfold matches_at, PROCESS_REGEX.
  destruct (slice s (Num z)) as [| c rest]; [discriminate |].
  intros Hc. exists c. simpl. rewrite Hc.
  cbn [String.length Z.of_nat Pos.of_succ_nat Z.sub Z.add Z.opp Z.pos_sub plus].
  now rewrite Z.add_0_r.
Qed.

Lemma regex_matcher_well_spanned : well_spanned regex_matcher.
Proof.
  intros s tt tv gm z v Hv Ht. unfold regex_matcher in Hv.
  assert (Hv' : v = PROCESS_REGEX s tt (AnyValidator tv) (AnyIndex Undef) (Num z))
    by congruence.
  subst v. destruct (PROCESS_REGEX_span _ _ _ _ _ Ht) as (Hs & He & _).
  split; [exact Hs |]. exists z. split; [exact He | lia].
Qed.

(** ** Spans built by the processors *)

Section Spans.

Variable callee :
  string -> tag -> TokenValidator -> option BaseGrammarMapType -> idx ->
  outcome jsval.
Hypothesis callee_spans : well_spanned callee.
Variables (s : string) (tt : tag) (tv : TokenValidator)
          (gm : option BaseGrammarMapType).

(** The cursor of the loop does not move back. *)
Lemma repeats_cursor (c c' : idx) (rs : list jsval) :
  repeats callee s tt tv gm c rs c' ->
  forall z, c = Num z -> exists z', c' = Num z' /\ (z <= z')%Z.
Proof.
  induction 1 as [c | c v rs c' Hv Ht Hrep IH]; intros z ->.
  - exists z. split; [reflexivity | lia].
  - destruct (callee_spans s tt tv gm z v Hv Ht) as (_ & e & He & Hle).
    rewrite He in IH. destruct (IH (e + 1)%Z eq_refl) as (z' & -> & Hz').
    exists z'. split; [reflexivity | lia].
Qed.

(** With such an inner matcher the nodes of ZeroOrMore and OneOrMore
    satisfy [endIndex >= startIndex - 1]. *)
Lemma repetition_nodes_keep_the_span (steps : nat) (z : Z) (v : jsval) :
  (ZERO_OR_MORE_PROCESSOR callee s tt tv gm steps (Num z) = Ret v ->
   span_ok v = true) /\
  (ONE_OR_MORE_PROCESSOR callee s tt tv gm steps (Num z) = Ret v ->
   truthy v = true -> span_ok v = true).
Proof.
  unfold ZERO_OR_MORE_PROCESSOR, ONE_OR_MORE_PROCESSOR.
  destruct (while_true callee s tt tv gm steps (Num z) []) as [[c' rs] | e |] eqn:Hw;
    simpl; [| split; discriminate | split; discriminate].
  apply while_true_ret_inv in Hw.
  destruct Hw as (rs' & f & Hout & Hrep & _).
  destruct (repeats_cursor _ _ _ Hrep z eq_refl) as (z' & -> & Hz').
  assert (Hnode : span_ok (Node (Num z) (sub1 (Num z')) tt (Arr rs)) = true).
  { unfold span_ok. simpl. apply Z.leb_le. lia. }
  assert (Hempty : span_ok (Node (Num z) (Num z) tt (Str "")) = true).
  { unfold span_ok. simpl. apply Z.leb_le. lia. }
  split; destruct (0 <? List.length rs)%nat; intros [= <-]; auto; discriminate.
Qed.

(** The same for what ZeroOrOne returns. *)
Lemma optional_node_keeps_the_span (z : Z) (v : jsval) :
  ZERO_OR_ONE_PROCESSOR callee s tt tv gm (Num z) = Ret v ->
  truthy v = true -> span_ok v = true.
Proof.
  unfold ZERO_OR_ONE_PROCESSOR.
  destruct (callee s tt tv gm (Num z)) as [r | e |] eqn:Hr; simpl;
    try discriminate.
  destruct (truthy r) eqn:Ht.
  - destruct (callee s tt tv gm (add1 (prop_endIndex r))) as [r' | e |];
      simpl; try discriminate.
    destruct (truthy r'); intros [= <-]; [discriminate |].
    intros _.
    destruct (callee_spans s tt tv gm z r Hr Ht) as (Hs & e & He & Hle).
    unfold span_ok. rewrite He, Hs. simpl. apply Z.leb_le. lia.
  - intros [= <-] _. unfold span_ok. simpl. apply Z.leb_le. lia.
Qed.

End Spans.

(** ** The four branches of [processTokenValidator] *)

Lemma processTokenValidator_combination (d steps : nat) (s : string)
    (tt : tag) (members : list TokenValidator)
    (gm : option BaseGrammarMapType) (ci : idx) :
  processTokenValidator (S d) steps s tt (Combination members) gm ci =
  for_of_members (fun t => processTokenValidator d steps s tt t gm ci)
                 members [].
Proof. reflexivity. Qed.

Lemma processTokenValidator_pattern (d steps : nat) (s : string)
    (tt : tag) (re : RegExp) (gm : option BaseGrammarMapType) (ci : idx) :
  processTokenValidator (S d) steps s tt (Pattern re) gm ci = Ret JFalse.
Proof. reflexivity. Qed.

Lemma processTokenValidator_options_config (d steps : nat) (s : string)
    (tt : tag) (t : TokenValidator) (opt : TokenProcessorOptionTypes)
    (gm : option BaseGrammarMapType) (ci : idx) :
  processTokenValidator (S d) steps s tt (OptionsConfig t opt) gm ci =
  let* result :=
    TOKEN_VALIDATOR_OPTION_PROCESSORS (processTokenValidator d steps) opt
      steps s (Index ci) t None Undef in
  if truthy result then Ret (Node ci NaN tt Undefined) else Ret JFalse.
Proof. reflexivity. Qed.

Lemma processTokenValidator_token_type (d steps : nat) (s : string)
    (tt : tag) (name : string) (m : BaseGrammarMapType) (ci : idx) :
  processTokenValidator (S d) steps s tt (TokenType name) (Some m) ci =
  match m !! name with
  | Some descriptor =>
      for_of_options
        (fun t => processTokenValidator d steps s (Name name) t (Some m) ci)
        (options descriptor)
  | None => if inherited name then Ret JFalse else Throw TypeError
  end.
Proof. reflexivity. Qed.

(** A rule name looked up in an [undefined] grammar map. *)
Lemma processTokenValidator_token_type_no_map (d steps : nat) (s : string)
    (tt : tag) (name : string) (ci : idx) :
  processTokenValidator (S d) steps s tt (TokenType name) None ci =
  Throw TypeError.
Proof. reflexivity. Qed.

(** ** A larger budget changes no answer

    [steps] is a device of the model.  An answer other than [OutOfSteps]
    is the answer for every larger budget, so that ``the call returns
    [v]'' does not depend on the budget chosen. *)

Lemma settled_refl {A : Type} (r : outcome A) : settled r r.
Proof. now right. Qed.

Lemma settled_bind {A B : Type} (m m' : outcome A) (k k' : A -> outcome B) :
  settled m m' -> (forall a, settled (k a) (k' a)) ->
  settled (bind m k) (bind m' k').
Proof.
  intros [-> | ->] Hk; [now left |].
  destruct m as [a | e |]; simpl; [apply Hk | now right | now left].
Qed.

Section Budget.

Variables callee callee' :
  string -> tag -> TokenValidator -> option BaseGrammarMapType -> idx ->
  outcome jsval.
Hypothesis callee_settled :
  forall s tt tv gm c, settled (callee s tt tv gm c) (callee' s tt tv gm c).

Variables (s : string) (tt : tag) (tv : TokenValidator)
          (gm : option BaseGrammarMapType).

Lemma while_true_budget (n n' : nat) :
  (n <= n')%nat ->
  forall c acc,
    settled (while_true callee s tt tv gm n c acc)
            (while_true callee' s tt tv gm n' c acc).
Proof.
  revert n'. induction n as [| n IH]; intros n' Hle c acc; [now left |].
  destruct n' as [| n']; [lia |].
  rewrite !while_true_S. apply settled_bind; [apply callee_settled |].
  intros r. destruct (truthy r); [apply IH; lia | apply settled_refl].
Qed.

Lemma ZERO_OR_MORE_budget (n n' : nat) (ci : idx) :
  (n <= n')%nat ->
  settled (ZERO_OR_MORE_PROCESSOR callee s tt tv gm n ci)
          (ZERO_OR_MORE_PROCESSOR callee' s tt tv gm n' ci).
Proof.
  intros Hle. unfold ZERO_OR_MORE_PROCESSOR.
  apply settled_bind; [now apply while_true_budget |].
  intros st. apply settled_refl.
Qed.

Lemma ONE_OR_MORE_budget (n n' : nat) (ci : idx) :
  (n <= n')%nat ->
  settled (ONE_OR_MORE_PROCESSOR callee s tt tv gm n ci)
          (ONE_OR_MORE_PROCESSOR callee' s tt tv gm n' ci).
Proof.
  intros Hle. unfold ONE_OR_MORE_PROCESSOR.
  apply settled_bind; [now apply while_true_budget |].
  intros st. apply settled_refl.
Qed.

Lemma ZERO_OR_ONE_budget (ci : idx) :
  settled (ZERO_OR_ONE_PROCESSOR callee s tt tv gm ci)
          (ZERO_OR_ONE_PROCESSOR callee' s tt tv gm ci).
Proof.
  unfold ZERO_OR_ONE_PROCESSOR.
  apply settled_bind; [apply callee_settled |].
  intros r. destruct (truthy r); [| apply settled_refl].
  apply settled_bind; [apply callee_settled |].
  intros r'. apply settled_refl.
Qed.

Lemma repeats_budget (c c' : idx) (rs : list jsval) :
  repeats callee s tt tv gm c rs c' -> repeats callee' s tt tv gm c rs c'.
Proof.
  induction 1 as [c | c v rs c' Hv Ht Hrep IH]; [apply repeats_nil |].
  apply repeats_cons; [| exact Ht | exact IH].
  destruct (callee_settled s tt tv gm c) as [H | H]; congruence.
Qed.

Lemma some_attempt_stops_budget (c : idx) :
  some_attempt_stops callee s tt tv gm c ->
  some_attempt_stops callee' s tt tv gm c.
Proof.
  intros (rs & c' & Hrep & Hstop).
  exists rs, c'. split; [now apply repeats_budget |].
  destruct (callee_settled s tt tv gm c') as [H | H];
    destruct Hstop as [(f & Hf & Hff) | (e & He)]; try congruence.
  - left. exists f. split; congruence.
  - right. exists e. congruence.
Qed.

End Budget.

Lemma for_of_members_budget (process process' : TokenValidator -> outcome jsval) :
  (forall t, settled (process t) (process' t)) ->
  forall members acc,
    settled (for_of_members process members acc)
            (for_of_members process' members acc).
Proof.
  intros Hp members.
  induction members as [| t rest IH]; intros acc; simpl; [apply settled_refl |].
  apply settled_bind; [apply Hp |].
  intros r. destruct (truthy r); [apply IH | apply settled_refl].
Qed.

Lemma for_of_options_budget (process process' : TokenValidator -> outcome jsval) :
  (forall t, settled (process t) (process' t)) ->
  forall opts,
    settled (for_of_options process opts) (for_of_options process' opts).
Proof.
  intros Hp opts.
  induction opts as [| t rest IH]; simpl; [apply settled_refl |].
  apply settled_bind; [apply Hp |].
  intros r. destruct (truthy r); [apply settled_refl | apply IH].
Qed.

Lemma processTokenValidator_budget (d n n' : nat) :
  (n <= n')%nat ->
  forall s tt tv gm ci,
    settled (processTokenValidator d n s tt tv gm ci)
            (processTokenValidator d n' s tt tv gm ci).
Proof.
  intros Hle. induction d as [| d IH]; intros s tt tv gm ci;
    [apply settled_refl |].
  destruct tv as [name | re | t opt | members].
  - destruct gm as [m |]; [| apply settled_refl].
    rewrite !processTokenValidator_token_type.
    destruct (m !! name) as [descriptor |]; [| apply settled_refl].
    apply for_of_options_budget. intros t. apply IH.
  - apply settled_refl.
  - rewrite !processTokenValidator_options_config.
    apply settled_bind; [| intros r; apply settled_refl].
    destruct opt; cbn [TOKEN_VALIDATOR_OPTION_PROCESSORS].
    + now apply ZERO_OR_MORE_budget.
    + now apply ONE_OR_MORE_budget.
    + now apply ZERO_OR_ONE_budget.
  - rewrite !processTokenValidator_combination.
    apply for_of_members_budget. intros t. apply IH.
Qed.

(** An answer of the parse is the answer for every larger budget. *)
Lemma parseSyntaxString_budget (d n n' : nat) (s : string) (g : Grammar)
    (r : outcome jsval) :
  (n <= n')%nat ->
  parseSyntaxString d n s g = r -> r <> OutOfSteps ->
  parseSyntaxString d n' s g = r.
Proof.
  intros Hle Hr Hne.
  destruct (processTokenValidator_budget d n n' Hle s (Name (entry g))
              (TokenType (entry g)) (Some (map g)) (Num 0)) as [H | H].
  - unfold parseSyntaxString in Hr. congruence.
  - unfold parseSyntaxString in *. congruence.
Qed.

(** ** The engine does not read its input

    Since no pattern is ever matched against the text, whether a
    validator succeeds depends neither on the input string nor on the
    cursor. *)

Section Alike.

Variables callee callee' :
  string -> tag -> TokenValidator -> option BaseGrammarMapType -> idx ->
  outcome jsval.
Variables (s s' : string) (tt tt' : tag) (tv : TokenValidator)
          (gm : option BaseGrammarMapType).
Hypothesis callee_alike :
  forall c c', alike (callee s tt tv gm c) (callee' s' tt' tv gm c').

Lemma while_true_alike (n : nat) :
  forall c c' acc acc',
    List.length acc = List.length acc' ->
    match while_true callee s tt tv gm n c acc,
          while_true callee' s' tt' tv gm n c' acc' with
    | Ret st, Ret st' => List.length (snd st) = List.length (snd st')
    | Throw e, Throw e' => e = e'
    | OutOfSteps, OutOfSteps => True
    | _, _ => False
    end.
Proof.
  induction n as [| n IH]; intros c c' acc acc' Hlen; [exact I |].
  rewrite !while_true_S. pose proof (callee_alike c c') as Ha.
  destruct (callee s tt tv gm c) as [r | e |],
           (callee' s' tt' tv gm c') as [r' | e' |];
    simpl in *; try contradiction; auto.
  rewrite <- Ha. destruct (truthy r); [| exact Hlen].
  apply IH. rewrite !length_app. simpl. lia.
Qed.

Lemma ZERO_OR_MORE_alike (n : nat) (c c' : idx) :
  alike (ZERO_OR_MORE_PROCESSOR callee s tt tv gm n c)
        (ZERO_OR_MORE_PROCESSOR callee' s' tt' tv gm n c').
Proof.
  unfold ZERO_OR_MORE_PROCESSOR.
  pose proof (while_true_alike n c c' [] [] eq_refl) as H.
  destruct (while_true callee s tt tv gm n c []) as [[l rs] | e |],
           (while_true callee' s' tt' tv gm n c' []) as [[l' rs'] | e' |];
    simpl in *; try contradiction; auto.
  rewrite <- H. destruct (0 <? List.length rs)%nat; reflexivity.
Qed.

Lemma ONE_OR_MORE_alike (n : nat) (c c' : idx) :
  alike (ONE_OR_MORE_PROCESSOR callee s tt tv gm n c)
        (ONE_OR_MORE_PROCESSOR callee' s' tt' tv gm n c').
Proof.
  unfold ONE_OR_MORE_PROCESSOR.
  pose proof (while_true_alike n c c' [] [] eq_refl) as H.
  destruct (while_true callee s tt tv gm n c []) as [[l rs] | e |],
           (while_true callee' s' tt' tv gm n c' []) as [[l' rs'] | e' |];
    simpl in *; try contradiction; auto.
  rewrite <- H. destruct (0 <? List.length rs)%nat; reflexivity.
Qed.

Lemma ZERO_OR_ONE_alike (c c' : idx) :
  alike (ZERO_OR_ONE_PROCESSOR callee s tt tv gm c)
        (ZERO_OR_ONE_PROCESSOR callee' s' tt' tv gm c').
Proof.
  unfold ZERO_OR_ONE_PROCESSOR. pose proof (callee_alike c c') as Ha.
  destruct (callee s tt tv gm c) as [r | e |],
           (callee' s' tt' tv gm c') as [r' | e' |];
    simpl in *; try contradiction; auto.
  rewrite <- Ha. destruct (truthy r) eqn:Ht; [| reflexivity].
  pose proof (callee_alike (add1 (prop_endIndex r))
                           (add1 (prop_endIndex r'))) as Hb.
  destruct (callee s tt tv gm (add1 (prop_endIndex r))) as [q | e |],
           (callee' s' tt' tv gm (add1 (prop_endIndex r'))) as [q' | e' |];
    simpl in *; try contradiction; auto.
  rewrite <- Hb. destruct (truthy q); simpl; congruence.
Qed.

End Alike.

Lemma for_of_members_alike (process process' : TokenValidator -> outcome jsval) :
  (forall t, alike (process t) (process' t)) ->
  forall members acc acc',
    alike (for_of_members process members acc)
          (for_of_members process' members acc').
Proof.
  intros Hp members.
  induction members as [| t rest IH]; intros acc acc'; simpl; [reflexivity |].
  pose proof (Hp t) as Ha.
  destruct (process t) as [r | e |], (process' t) as [r' | e' |];
    simpl in *; try contradiction; auto.
  rewrite <- Ha. destruct (truthy r); [apply IH | reflexivity].
Qed.

Lemma for_of_options_alike (process process' : TokenValidator -> outcome jsval) :
  (forall t, alike (process t) (process' t)) ->
  forall opts,
    alike (for_of_options process opts) (for_of_options process' opts).
Proof.
  intros Hp opts.
  induction opts as [| t rest IH]; simpl; [reflexivity |].
  pose proof (Hp t) as Ha.
  destruct (process t) as [r | e |], (process' t) as [r' | e' |];
    simpl in *; try contradiction; auto.
  rewrite <- Ha. destruct (truthy r) eqn:Ht; [| apply IH].
  simpl. congruence.
Qed.

Lemma processTokenValidator_alike (d steps : nat) :
  forall s s' tt tt' tv gm ci ci',
    alike (processTokenValidator d steps s tt tv gm ci)
          (processTokenValidator d steps s' tt' tv gm ci').
Proof.
  induction d as [| d IH]; intros s s' tt tt' tv gm ci ci'; [reflexivity |].
  destruct tv as [name | re | t opt | members].
  - destruct gm as [m |]; [| reflexivity].
    rewrite !processTokenValidator_token_type.
    destruct (m !! name) as [descriptor |];
      [| destruct (inherited name); reflexivity].
    apply for_of_options_alike. intros t. apply IH.
  - reflexivity.
  - rewrite !processTokenValidator_options_config.
    assert (Hproc : alike
      (TOKEN_VALIDATOR_OPTION_PROCESSORS (processTokenValidator d steps) opt
         steps s (Index ci) t None Undef)
      (TOKEN_VALIDATOR_OPTION_PROCESSORS (processTokenValidator d steps) opt
         steps s' (Index ci') t None Undef)).
    { destruct opt; cbn [TOKEN_VALIDATOR_OPTION_PROCESSORS].
      - apply ZERO_OR_MORE_alike. intros c c'. apply IH.
      - apply ONE_OR_MORE_alike. intros c c'. apply IH.
      - apply ZERO_OR_ONE_alike. intros c c'. apply IH. }
    destruct (TOKEN_VALIDATOR_OPTION_PROCESSORS _ _ _ s _ _ _ _) as [r | e |],
             (TOKEN_VALIDATOR_OPTION_PROCESSORS _ _ _ s' _ _ _ _) as [r' | e' |];
      simpl in *; try contradiction; auto.
    rewrite <- Hproc. destruct (truthy r); reflexivity.
  - rewrite !processTokenValidator_combination.
    apply for_of_members_alike. intros t. apply IH.
Qed.

(** Whether a grammar accepts does not depend on the text that is
    parsed. *)
Lemma parseSyntaxString_ignores_the_input (d steps : nat) (s s' : string)
    (g : Grammar) :
  alike (parseSyntaxString d steps s g) (parseSyntaxString d steps s' g).
Proof. apply processTokenValidator_alike. Qed.

(** In the engine a validator that matches at one cursor matches at
    every cursor. *)
Lemma engine_match_at_every_cursor (d steps : nat) (s : string) (tt : tag)
    (tv : TokenValidator) (gm : option BaseGrammarMapType) (ci : idx)
    (v : jsval) :
  processTokenValidator d steps s tt tv gm ci = Ret v -> truthy v = true ->
  forall c, exists v',
    processTokenValidator d steps s tt tv gm c = Ret v' /\ truthy v' = true.
Proof.
  intros Hv Ht c.
  pose proof (processTokenValidator_alike d steps s s tt tt tv gm ci c) as Ha.
  rewrite Hv in Ha.
  destruct (processTokenValidator d steps s tt tv gm c) as [v' | e |];
    simpl in Ha; try contradiction.
  exists v'. split; [reflexivity | congruence].
Qed.

(** Hence, in the engine, a repetition whose inner validator matches once
    never ends, and an optional validator whose inner validator matches
    fails. *)
Lemma engine_repetition_after_a_match (d steps : nat) (s : string)
    (tt : tag) (tv : TokenValidator) (gm : option BaseGrammarMapType)
    (ci : idx) (v : jsval) :
  processTokenValidator d steps s tt tv gm ci = Ret v -> truthy v = true ->
  (forall n c,
     ZERO_OR_MORE_PROCESSOR (processTokenValidator d steps) s tt tv gm n c =
       OutOfSteps /\
     ONE_OR_MORE_PROCESSOR (processTokenValidator d steps) s tt tv gm n c =
       OutOfSteps) /\
  (forall c,
     ZERO_OR_ONE_PROCESSOR (processTokenValidator d steps) s tt tv gm c =
       Ret JFalse).
Proof.
  intros Hv Ht.
  pose proof (engine_match_at_every_cursor d steps s tt tv gm ci v Hv Ht)
    as Hall.
  split.
  - intros n c. unfold ZERO_OR_MORE_PROCESSOR, ONE_OR_MORE_PROCESSOR.
    rewrite (while_true_forever _ s tt tv gm Hall). split; reflexivity.
  - intros c. unfold ZERO_OR_ONE_PROCESSOR.
    destruct (Hall c) as (r & Hr & Htr). rewrite Hr. simpl. rewrite Htr.
    destruct (Hall (add1 (prop_endIndex r))) as (r' & Hr' & Htr').
    rewrite Hr'. simpl. now rewrite Htr'.
Qed.

(** ** The two repetition processors side by side *)

Section Agreement.

Variable callee :
  string -> tag -> TokenValidator -> option BaseGrammarMapType -> idx ->
  outcome jsval.
Variables (s : string) (tt : tag) (tv : TokenValidator)
          (gm : option BaseGrammarMapType).

(** A loop that ends with no result is one whose first attempt failed. *)
Lemma while_true_empty_inv (steps : nat) (ci c' : idx) :
  while_true callee s tt tv gm steps ci [] = Ret (c', []) ->
  c' = ci /\ exists f, callee s tt tv gm ci = Ret f /\ truthy f = false.
Proof.
  intros H. apply while_true_ret_inv in H.
  destruct H as (rs & f & Hout & Hrep & _ & Hf & Hff).
  simpl in Hout. subst rs. inversion Hrep; subst.
  split; [reflexivity | now exists f].
Qed.

(** A first attempt that fails ends the loop at once. *)
Lemma while_true_first_fails (steps : nat) (ci : idx) (f : jsval) :
  callee s tt tv gm ci = Ret f -> truthy f = false -> (0 < steps)%nat ->
  while_true callee s tt tv gm steps ci [] = Ret (ci, []).
Proof.
  intros Hf Hff Hpos.
  apply (while_true_stops callee s tt tv gm ci ci [] f (repeats_nil _ _ _ _ _ ci) Hf Hff).
  simpl. lia.
Qed.



End Agreement.



(** ** ZeroOrMore and OneOrMore: success and failure *)

(** With the empty combination as inner validator every attempt succeeds
    (an empty array is truthy), whatever the cursor. *)
Lemma empty_combination_always_matches (d steps : nat) (s : string)
    (tt : tag) (gm : option BaseGrammarMapType) (c : idx) :
  exists v, processTokenValidator (S d) steps s tt (Combination []) gm c = Ret v /\
            truthy v = true.
Proof. exists (Arr []). split; reflexivity. Qed.

(** The claim of C4 fails: on the empty combination the ZeroOrMore
    processor returns neither a success nor anything else, for no stack
    depth and no budget of its loop. *)
Lemma C4_zero_or_more_may_never_return :
  ~ (exists depth steps v,
       ZERO_OR_MORE_PROCESSOR (processTokenValidator depth steps) ""
         (Name "r") (Combination []) None steps (Num 0) = Ret v).
Proof.
  intros (depth & steps & v & H).
  destruct depth as [| d].
  - destruct steps as [| n]; [discriminate |].
    unfold ZERO_OR_MORE_PROCESSOR in H. rewrite while_true_S in H.
    discriminate.
  - unfold ZERO_OR_MORE_PROCESSOR in H.
    rewrite while_true_forever in H; [discriminate |].
    intros c. apply empty_combination_always_matches.
Qed.

(** C4, amended. The ZeroOrMore processor never returns Failure: what it
    returns is a success, and it does return one whenever its repetition
    stops on a failed attempt of the inner validator.  The OneOrMore
    processor returns Failure if and only if the inner validator fails on
    the very first attempt. *)
Theorem C4_zero_or_more_never_fails_one_or_more_fails_on_first_attempt
    (callee : string -> tag -> TokenValidator ->
              option BaseGrammarMapType -> idx -> outcome jsval)
    (s : string) (tt : tag) (tv : TokenValidator)
    (gm : option BaseGrammarMapType) (steps : nat) (ci : idx) :
  (forall v, ZERO_OR_MORE_PROCESSOR callee s tt tv gm steps ci = Ret v ->
             truthy v = true) /\
  (forall rs c' f,
     repeats callee s tt tv gm ci rs c' ->
     callee s tt tv gm c' = Ret f -> truthy f = false ->
     (List.length rs < steps)%nat ->
     exists node, ZERO_OR_MORE_PROCESSOR callee s tt tv gm steps ci = Ret node /\
                  truthy node = true) /\
  ((0 < steps)%nat ->
   (ONE_OR_MORE_PROCESSOR callee s tt tv gm steps ci = Ret JFalse <->
    exists f, callee s tt tv gm ci = Ret f /\ truthy f = false)).
Proof.
  split; [| split].
  - intros v. unfold ZERO_OR_MORE_PROCESSOR.
    destruct (while_true callee s tt tv gm steps ci []) as [[c' rs] | e |];
      simpl; try discriminate.
    destruct (0 <? List.length rs)%nat; intros [= <-]; reflexivity.
  - intros rs c' f Hrep Hf Hff Hlt.
    pose proof (while_true_stops callee s tt tv gm ci c' rs f Hrep Hf Hff
                  steps [] Hlt) as Hw.
    simpl in Hw. unfold ZERO_OR_MORE_PROCESSOR. rewrite Hw. simpl.
    destruct (0 <? List.length rs)%nat; eexists; split; reflexivity.
  - intros Hpos. split.
    + unfold ONE_OR_MORE_PROCESSOR.
      destruct (while_true callee s tt tv gm steps ci []) as [[c' rs] | e |] eqn:Hw;
        simpl; try discriminate.
      destruct rs as [| r rs]; simpl; [| discriminate].
      intros _. apply while_true_empty_inv in Hw. tauto.
    + intros (f & Hf & Hff). unfold ONE_OR_MORE_PROCESSOR.
      now rewrite (while_true_first_fails callee s tt tv gm steps ci f Hf Hff Hpos).
Qed.

(** In the engine a pattern fails at the first attempt: ZeroOrMore
    returns a success and OneOrMore returns Failure.  On ["aab"], matched
    by [regex_matcher], the repetition of [/a/] stops at the third
    attempt and ZeroOrMore returns a success. *)
Lemma C4_witness :
  (exists node,
     ZERO_OR_MORE_PROCESSOR (processTokenValidator 1 5) "b" (Name "r")
                            (Pattern re_a) None 5 (Num 0) = Ret node /\
     truthy node = true) /\
  ONE_OR_MORE_PROCESSOR (processTokenValidator 1 5) "b" (Name "r")
                        (Pattern re_a) None 5 (Num 0) = Ret JFalse /\
  (exists node,
     ZERO_OR_MORE_PROCESSOR regex_matcher "aab" (Name "r") (Pattern re_a)
                            None 5 (Num 0) = Ret node /\
     truthy node = true).
Proof.
  split; [| split].
  - refine (proj1 (proj2 (C4_zero_or_more_never_fails_one_or_more_fails_on_first_attempt
              (processTokenValidator 1 5) "b" (Name "r") (Pattern re_a)
              None 5 (Num 0)))
            [] (Num 0) JFalse _ eq_refl eq_refl _).
    + apply repeats_nil.
    + simpl. lia.
  - refine (proj2 (proj2 (proj2 (C4_zero_or_more_never_fails_one_or_more_fails_on_first_attempt
              (processTokenValidator 1 5) "b" (Name "r") (Pattern re_a)
              None 5 (Num 0))) _) _).
    + lia.
    + exists JFalse. split; reflexivity.
  - refine (proj1 (proj2 (C4_zero_or_more_never_fails_one_or_more_fails_on_first_attempt
              regex_matcher "aab" (Name "r") (Pattern re_a) None 5 (Num 0)))
            [Node (Num 0) (Num 0) (Name "r") (Str "a");
             Node (Num 1) (Num 1) (Name "r") (Str "a")]
            (Num 2) JFalse _ eq_refl eq_refl _).
    + apply repeats_cons; [reflexivity | reflexivity |].
      apply repeats_cons; [reflexivity | reflexivity |].
      apply repeats_nil.
    + simpl. lia.
Defined.

(** ** ZeroOrMore with no repetition *)

(** The claim of C5 fails: with no repetition the node's value is the
    empty string, not an empty list, and its [endIndex] is the cursor,
    not the cursor minus one. *)
Lemma C5_empty_result_is_not_a_zero_width_list :
  processTokenValidator 3 3 "b" (Name "r") (Pattern re_a)
                        (Some (map optional_grammar)) (Num 0) = Ret JFalse /\
  exists v,
    ZERO_OR_MORE_PROCESSOR (processTokenValidator 3 3) "b" (Name "r")
      (Pattern re_a) (Some (map optional_grammar)) 3 (Num 0) = Ret v /\
    prop_startIndex v = Num 0 /\
    prop_value v <> Arr [] /\
    prop_endIndex v <> sub1 (prop_startIndex v).
Proof.
  split; [reflexivity |].
  exists (Node (Num 0) (Num 0) (Name "r") (Str "")).
  repeat split; simpl; discriminate.
Qed.

(** C5, amended. When the inner validator fails on the first attempt, the
    ZeroOrMore processor succeeds with a node that starts at the cursor,
    carries the given tag and has the empty string as its value. *)
Theorem C5_zero_repetitions_give_the_empty_string_at_the_cursor
    (callee : string -> tag -> TokenValidator ->
              option BaseGrammarMapType -> idx -> outcome jsval)
    (s : string) (tt : tag) (tv : TokenValidator)
    (gm : option BaseGrammarMapType) (steps : nat) (ci : idx) (f : jsval) :
  callee s tt tv gm ci = Ret f -> truthy f = false -> (0 < steps)%nat ->
  exists node,
    ZERO_OR_MORE_PROCESSOR callee s tt tv gm steps ci = Ret node /\
    truthy node = true /\
    prop_startIndex node = ci /\
    prop_tokenType node = Some tt /\
    prop_value node = Str "".
Proof.
  intros Hf Hff Hpos. unfold ZERO_OR_MORE_PROCESSOR.
  rewrite (while_true_first_fails callee s tt tv gm steps ci f Hf Hff Hpos).
  simpl. eexists. repeat split.
Qed.

Lemma C5_witness :
  exists node,
    ZERO_OR_MORE_PROCESSOR (processTokenValidator 3 3) "b" (Name "r")
      (Pattern re_a) (Some (map optional_grammar)) 3 (Num 0) = Ret node /\
    truthy node = true /\
    prop_startIndex node = Num 0 /\
    prop_tokenType node = Some (Name "r") /\
    prop_value node = Str "".
Proof.
  apply (C5_zero_repetitions_give_the_empty_string_at_the_cursor
           (processTokenValidator 3 3) "b" (Name "r") (Pattern re_a)
           (Some (map optional_grammar)) 3 (Num 0) JFalse).
  - reflexivity.
  - reflexivity.
  - lia.
Defined.

(** ** ZeroOrOne *)

(** The claim of C3 fails: the empty combination matches at the cursor,
    and matches again at the second attempt, so the ZeroOrOne processor
    returns Failure. *)
Lemma C3_zero_or_one_fails_on_a_second_match :
  processTokenValidator 1 1 "" (Name "r") (Combination []) None (Num 0) =
    Ret (Arr []) /\
  ZERO_OR_ONE_PROCESSOR (processTokenValidator 1 1) "" (Name "r")
                        (Combination []) None (Num 0) = Ret JFalse.
Proof. split; reflexivity. Qed.

(** C3, amended. The ZeroOrOne processor attempts its inner validator at
    most twice.  If the first attempt fails, it succeeds with a node that
    starts at the cursor and has the empty string as its value.  If the
    first attempt matches and the second one, started at the first
    match's [endIndex + 1], fails, the result is the first match.  If
    both attempts match, it returns Failure. *)
Theorem C3_zero_or_one_by_cases
    (callee : string -> tag -> TokenValidator ->
              option BaseGrammarMapType -> idx -> outcome jsval)
    (s : string) (tt : tag) (tv : TokenValidator)
    (gm : option BaseGrammarMapType) (ci : idx) :
  (forall f, callee s tt tv gm ci = Ret f -> truthy f = false ->
     exists node,
       ZERO_OR_ONE_PROCESSOR callee s tt tv gm ci = Ret node /\
       truthy node = true /\
       prop_startIndex node = ci /\
       prop_tokenType node = Some tt /\
       prop_value node = Str "") /\
  (forall v f, callee s tt tv gm ci = Ret v -> truthy v = true ->
     callee s tt tv gm (add1 (prop_endIndex v)) = Ret f -> truthy f = false ->
     ZERO_OR_ONE_PROCESSOR callee s tt tv gm ci = Ret v) /\
  (forall v v', callee s tt tv gm ci = Ret v -> truthy v = true ->
     callee s tt tv gm (add1 (prop_endIndex v)) = Ret v' -> truthy v' = true ->
     ZERO_OR_ONE_PROCESSOR callee s tt tv gm ci = Ret JFalse).
Proof.
  unfold ZERO_OR_ONE_PROCESSOR. split; [| split].
  - intros f Hf Hff. rewrite Hf. simpl. rewrite Hff.
    eexists. repeat split.
  - intros v f Hv Ht Hf Hff. rewrite Hv. simpl. rewrite Ht, Hf. simpl.
    now rewrite Hff.
  - intros v v' Hv Ht Hv' Ht'. rewrite Hv. simpl. rewrite Ht, Hv'. simpl.
    now rewrite Ht'.
Qed.

(** In the engine a pattern fails at the first attempt and the empty
    combination matches twice.  With [regex_matcher], [/a/] on ["ab"]
    matches once. *)
Lemma C3_witness :
  (exists node,
     ZERO_OR_ONE_PROCESSOR (processTokenValidator 1 1) "b" (Name "r")
                           (Pattern re_a) None (Num 0) = Ret node /\
     truthy node = true /\
     prop_startIndex node = Num 0 /\
     prop_tokenType node = Some (Name "r") /\
     prop_value node = Str "") /\
  ZERO_OR_ONE_PROCESSOR regex_matcher "ab" (Name "r") (Pattern re_a)
                        None (Num 0) =
    Ret (Node (Num 0) (Num 0) (Name "r") (Str "a")) /\
  ZERO_OR_ONE_PROCESSOR (processTokenValidator 1 1) "" (Name "r")
                        (Combination []) None (Num 7) = Ret JFalse.
Proof.
  split; [| split].
  - exact (proj1 (C3_zero_or_one_by_cases (processTokenValidator 1 1) "b"
                    (Name "r") (Pattern re_a) None (Num 0))
                 JFalse eq_refl eq_refl).
  - exact (proj1 (proj2 (C3_zero_or_one_by_cases regex_matcher "ab" (Name "r")
                           (Pattern re_a) None (Num 0)))
                 (Node (Num 0) (Num 0) (Name "r") (Str "a")) JFalse
                 eq_refl eq_refl eq_refl eq_refl).
  - exact (proj2 (proj2 (C3_zero_or_one_by_cases (processTokenValidator 1 1) ""
                           (Name "r") (Combination []) None (Num 7)))
                 (Arr []) (Arr []) eq_refl eq_refl eq_refl eq_refl).
Defined.

(** ** Termination of the repetition loops *)

(** The claim of C7 fails: the rule [r] repeats the empty combination
    with OneOrMore; with room for three activations on the stack the
    parse never uses a fourth and never ends. *)
Lemma C7_a_repetition_of_the_empty_combination_never_ends :
  ~ (forall depth, ends (fun steps =>
       parseSyntaxString depth steps "" looping_grammar)).
Proof.
  intros H. destruct (H 3%nat) as [steps Hsteps]. apply Hsteps.
  unfold parseSyntaxString. rewrite processTokenValidator_token_type.
  replace (map looping_grammar !! entry looping_grammar)
    with (Some {| options := [OptionsConfig (Combination []) ONE_OR_MORE] |})
    by reflexivity.
  cbn [for_of_options options]. rewrite processTokenValidator_options_config.
  cbn [TOKEN_VALIDATOR_OPTION_PROCESSORS]. unfold ONE_OR_MORE_PROCESSOR.
  rewrite while_true_forever; [reflexivity |].
  intros c. apply empty_combination_always_matches.
Qed.

(** In the engine the attempts of the inner validator share the budget
    of the loop; the loop comes to an end exactly when, for some budget,
    some attempt does not succeed. *)
Lemma engine_while_true_ends_iff (d : nat) (s : string) (tt : tag)
    (tv : TokenValidator) (gm : option BaseGrammarMapType) (ci : idx) :
  (exists steps,
     while_true (processTokenValidator d steps) s tt tv gm steps ci [] <>
     OutOfSteps) <->
  (exists steps,
     some_attempt_stops (processTokenValidator d steps) s tt tv gm ci).
Proof.
  split.
  - intros [steps H]. exists steps.
    apply (while_true_ends_iff (processTokenValidator d steps)).
    now exists steps.
  - intros (n & rs & c' & Hrep & Hstop).
    set (N := Nat.max n (S (List.length rs))).
    assert (Hsettled : forall s0 tt0 tv0 gm0 c0,
              settled (processTokenValidator d n s0 tt0 tv0 gm0 c0)
                      (processTokenValidator d N s0 tt0 tv0 gm0 c0)).
    { intros. apply processTokenValidator_budget. unfold N. lia. }
    pose proof (repeats_budget _ _ Hsettled s tt tv gm ci c' rs Hrep) as Hrep'.
    exists N.
    destruct Hstop as [(f & Hf & Hff) | (e & He)].
    + destruct (Hsettled s tt tv gm c') as [H | H]; [congruence |].
      rewrite (while_true_stops _ s tt tv gm ci c' rs f Hrep') by
        (try congruence; unfold N; lia).
      discriminate.
    + destruct (Hsettled s tt tv gm c') as [H | H]; [congruence |].
      rewrite (while_true_raises _ s tt tv gm ci c' rs e Hrep') by
        (try congruence; unfold N; lia).
      discriminate.
Qed.

(** A rule that refers to itself first uses up any stack: recursion has
    no bound of its own. *)
Lemma left_recursion_exhausts_the_stack (d steps : nat) (s : string)
    (tt : tag) (ci : idx) :
  processTokenValidator d steps s tt (TokenType "r")
                        (Some (map left_recursive_grammar)) ci =
  Throw RangeError.
Proof.
  revert tt. induction d as [| d IH]; intros tt; [reflexivity |].
  rewrite processTokenValidator_token_type.
  replace (map left_recursive_grammar !! "r")
    with (Some {| options := [TokenType "r"] |}) by reflexivity.
  cbn [for_of_options options]. now rewrite IH.
Qed.

(** C7, amended. The repetition loop of ZeroOrMore and of OneOrMore comes
    to an end exactly when some attempt of the inner validator does not
    succeed (it fails or raises); when every attempt succeeds the loop
    runs for ever.  This holds for the processors with any behaviour of
    the function they call, and for the processors as the engine runs
    them. *)
Theorem C7_repetition_ends_iff_some_attempt_stops
    (s : string) (tt : tag) (tv : TokenValidator)
    (gm : option BaseGrammarMapType) (ci : idx) :
  (forall callee,
     (ends (fun steps => ZERO_OR_MORE_PROCESSOR callee s tt tv gm steps ci) <->
      some_attempt_stops callee s tt tv gm ci) /\
     (ends (fun steps => ONE_OR_MORE_PROCESSOR callee s tt tv gm steps ci) <->
      some_attempt_stops callee s tt tv gm ci)) /\
  (forall d,
     (ends (fun steps =>
        ZERO_OR_MORE_PROCESSOR (processTokenValidator d steps) s tt tv gm
                               steps ci) <->
      exists steps,
        some_attempt_stops (processTokenValidator d steps) s tt tv gm ci) /\
     (ends (fun steps =>
        ONE_OR_MORE_PROCESSOR (processTokenValidator d steps) s tt tv gm
                              steps ci) <->
      exists steps,
        some_attempt_stops (processTokenValidator d steps) s tt tv gm ci)).
Proof.
  split.
  - intros callee. split.
    + rewrite <- while_true_ends_iff. unfold ends.
      split; intros [steps H]; exists steps; intros Hout; apply H;
        now apply ZERO_OR_MORE_out_iff.
    + rewrite <- while_true_ends_iff. unfold ends.
      split; intros [steps H]; exists steps; intros Hout; apply H;
        now apply ONE_OR_MORE_out_iff.
  - intros d. split.
    + rewrite <- engine_while_true_ends_iff. unfold ends.
      split; intros [steps H]; exists steps; intros Hout; apply H;
        now apply ZERO_OR_MORE_out_iff.
    + rewrite <- engine_while_true_ends_iff. unfold ends.
      split; intros [steps H]; exists steps; intros Hout; apply H;
        now apply ONE_OR_MORE_out_iff.
Qed.

(** In the engine a pattern fails at the first attempt, so the loop ends;
    with [regex_matcher] on ["aab"] the third attempt of [/a/] fails. *)
Lemma C7_witness :
  ends (fun steps =>
          ONE_OR_MORE_PROCESSOR (processTokenValidator 1 steps) "b" (Name "r")
                                (Pattern re_a) None steps (Num 0)) /\
  ends (fun steps => ZERO_OR_MORE_PROCESSOR regex_matcher "aab" (Name "r")
                       (Pattern re_a) None steps (Num 0)).
Proof.
  split.
  - refine (proj2 (proj2 (proj2 (C7_repetition_ends_iff_some_attempt_stops
                                   "b" (Name "r") (Pattern re_a) None (Num 0))
                                1%nat)) _).
    exists 1%nat, [], (Num 0). split; [apply repeats_nil |].
    left. exists JFalse. split; reflexivity.
  - refine (proj2 (proj1 (proj1 (C7_repetition_ends_iff_some_attempt_stops
                                   "aab" (Name "r") (Pattern re_a) None (Num 0))
                                regex_matcher)) _).
    exists [Node (Num 0) (Num 0) (Name "r") (Str "a");
            Node (Num 1) (Num 1) (Name "r") (Str "a")], (Num 2).
    split.
    + apply repeats_cons; [reflexivity | reflexivity |].
      apply repeats_cons; [reflexivity | reflexivity |].
      apply repeats_nil.
    + left. exists JFalse. split; reflexivity.
Defined.

(** ** Alternatives of a rule and members of a combination *)

Section ForOf.

Variable process : TokenValidator -> outcome jsval.

(** The first alternative that succeeds is the result; the alternatives
    after it play no part. *)
Lemma for_of_options_first (pre post : list TokenValidator)
    (t : TokenValidator) (v : jsval) :
  (forall p, In p pre -> exists f, process p = Ret f /\ truthy f = false) ->
  process t = Ret v -> truthy v = true ->
  for_of_options process (pre ++ t :: post) = Ret v.
Proof.
  intros Hpre Hv Ht. induction pre as [| p pre IH]; simpl.
  - rewrite Hv. simpl. now rewrite Ht.
  - destruct (Hpre p (or_introl eq_refl)) as (f & Hf & Hff).
    rewrite Hf. simpl. rewrite Hff. apply IH.
    intros q Hq. apply Hpre. now right.
Qed.


(** When every alternative fails the rule fails. *)
Lemma for_of_options_all_fail (opts : list TokenValidator) :
  (forall p, In p opts -> exists f, process p = Ret f /\ truthy f = false) ->
  for_of_options process opts = Ret JFalse.
Proof.
  intros Hall. induction opts as [| p opts IH]; simpl; [reflexivity |].
  destruct (Hall p (or_introl eq_refl)) as (f & Hf & Hff).
  rewrite Hf. simpl. rewrite Hff. apply IH.
  intros q Hq. apply Hall. now right.
Qed.

(** A member that fails makes the combination fail. *)
Lemma for_of_members_fails (pre post : list TokenValidator)
    (t : TokenValidator) (f : jsval) (acc : list jsval) :
  (forall p, In p pre -> exists v, process p = Ret v /\ truthy v = true) ->
  process t = Ret f -> truthy f = false ->
  for_of_members process (pre ++ t :: post) acc = Ret JFalse.
Proof.
  intros Hpre Hf Hff. revert acc.
  induction pre as [| p pre IH]; intros acc; simpl.
  - rewrite Hf. simpl. now rewrite Hff.
  - destruct (Hpre p (or_introl eq_refl)) as (v & Hv & Ht).
    rewrite Hv. simpl. rewrite Ht. apply IH.
    intros q Hq. apply Hpre. now right.
Qed.


End ForOf.

(** A quantified validator that succeeds through
    [processTokenValidator] yields a node with the tag it was given. *)
Lemma options_config_result_tag (d steps : nat) (s : string) (tt : tag)
    (t : TokenValidator) (opt : TokenProcessorOptionTypes)
    (gm : option BaseGrammarMapType) (ci : idx) (v : jsval) :
  processTokenValidator d steps s tt (OptionsConfig t opt) gm ci = Ret v ->
  truthy v = true ->
  v = Node ci NaN tt Undefined.
Proof.
  destruct d as [| d]; [discriminate |].
  rewrite processTokenValidator_options_config.
  destruct (TOKEN_VALIDATOR_OPTION_PROCESSORS _ _ _ _ _ _ _ _) as [r | e |];
    simpl; try discriminate.
  destruct (truthy r); intros [= <-]; [reflexivity | discriminate].
Qed.

(** A rule reference does not look at the tag it is given. *)
Lemma token_type_ignores_the_tag (d steps : nat) (s : string)
    (tt tt' : tag) (name : string) (gm : option BaseGrammarMapType)
    (ci : idx) :
  processTokenValidator d steps s tt (TokenType name) gm ci =
  processTokenValidator d steps s tt' (TokenType name) gm ci.
Proof. destruct d; reflexivity. Qed.

(** ** Rule references *)

(** The claim of C6 fails in its last part: rule [r] has the single
    alternative ['x'], a reference to rule [x]; the node that matching
    [r] returns is tagged [x]. *)
Lemma C6_a_nested_reference_keeps_the_inner_tag :
  exists v,
    parseSyntaxString 4 1 "" nested_grammar = Ret v /\
    prop_tokenType v = Some (Name "x") /\
    prop_tokenType v <> Some (Name (entry nested_grammar)).
Proof.
  exists (Node (Num 0) NaN (Name "x") Undefined).
  split; [reflexivity | split; [reflexivity | discriminate]].
Qed.

(** C6, amended. Matching a rule reference tries the alternatives of the
    referenced rule in the listed order, all at the same cursor and with
    the referenced rule's name as the tag, and returns the result of the
    first one that succeeds, as it is; the alternatives after it are not
    tried.  When that alternative is a quantified validator, the node is
    tagged with the referenced rule's name; when it is itself a rule
    reference, the result is that of the inner rule, whatever the name of
    the referencing rule. *)
Theorem C6_first_alternative_that_matches_wins
    (d steps : nat) (s : string) (tt : tag) (name : string)
    (m : BaseGrammarMapType) (ci : idx)
    (descriptor : GrammarMapTokenTypeDescriptor)
    (pre post : list TokenValidator) (t : TokenValidator) (v : jsval) :
  m !! name = Some descriptor ->
  options descriptor = pre ++ t :: post ->
  (forall p, In p pre ->
     exists f, processTokenValidator d steps s (Name name) p (Some m) ci = Ret f /\
               truthy f = false) ->
  processTokenValidator d steps s (Name name) t (Some m) ci = Ret v ->
  truthy v = true ->
  processTokenValidator (S d) steps s tt (TokenType name) (Some m) ci = Ret v /\
  (forall inner opt, t = OptionsConfig inner opt ->
     prop_tokenType v = Some (Name name)) /\
  (forall x tt', t = TokenType x ->
     processTokenValidator d steps s tt' (TokenType x) (Some m) ci = Ret v).
Proof.
  intros Hm Hopts Hpre Hv Ht. split; [| split].
  - rewrite processTokenValidator_token_type, Hm, Hopts.
    now apply for_of_options_first.
  - intros inner opt ->.
    now rewrite (options_config_result_tag _ _ _ _ _ _ _ _ _ Hv Ht).
  - intros x tt' ->. rewrite <- Hv. apply token_type_ignores_the_tag.
Qed.

(** Rule [r] of [ordered_grammar]: the pattern fails, the quantified
    validator succeeds, and the reference to the undeclared rule after it
    is never looked up. *)
Lemma C6_witness :
  processTokenValidator 3 1 "a" (Name "start") (TokenType "r")
                        (Some (map ordered_grammar)) (Num 0) =
    Ret (Node (Num 0) NaN (Name "r") Undefined).
Proof.
  refine (proj1 (C6_first_alternative_that_matches_wins
            2 1 "a" (Name "start") "r" (map ordered_grammar) (Num 0)
            {| options := [Pattern re_a;
                           OptionsConfig (Pattern re_a) ZERO_OR_MORE;
                           TokenType "missing"] |}
            [Pattern re_a] [TokenType "missing"]
            (OptionsConfig (Pattern re_a) ZERO_OR_MORE)
            (Node (Num 0) NaN (Name "r") Undefined)
            eq_refl eq_refl _ eq_refl eq_refl)).
  intros p [<- | []]. exists JFalse. split; reflexivity.
Defined.

(** ** Undeclared rules *)


(** So does every reference to an inherited name that is no key of the
    map: the options default to the empty list. *)
Lemma inherited_name_answers_false (d steps : nat) (s : string) (tt : tag)
    (name : string) (m : BaseGrammarMapType) (ci : idx) :
  m !! name = None -> inherited name = true ->
  processTokenValidator (S d) steps s tt (TokenType name) (Some m) ci =
    Ret JFalse.
Proof.
  intros Hnone Hin. now rewrite processTokenValidator_token_type, Hnone, Hin.
Qed.



(** ** Combinations, patterns and spans as the engine runs them *)

(** Two members of a combination are both processed at the cursor of the
    combination, and the result is the bare array of their results. *)
Lemma combination_of_two (d steps : nat) (s : string) (tt : tag)
    (t1 t2 : TokenValidator) (gm : option BaseGrammarMapType) (ci : idx) :
  processTokenValidator (S d) steps s tt (Combination [t1; t2]) gm ci =
  let* r1 := processTokenValidator d steps s tt t1 gm ci in
  if truthy r1 then
    let* r2 := processTokenValidator d steps s tt t2 gm ci in
    if truthy r2 then Ret (Arr [r1; r2]) else Ret JFalse
  else Ret JFalse.
Proof.
  rewrite processTokenValidator_combination. simpl.
  destruct (processTokenValidator d steps s tt t1 gm ci) as [r1 | e |];
    reflexivity.
Qed.

(** C1 (the code departs from it). On ["ab"] the combination of an
    optional [/a/] and an optional [/b/] processes both members at cursor
    0: the second member does not start after the first, and the result
    is an array of two nodes that both start at 0, not one node with a
    span. *)
Theorem C1_members_of_a_combination_share_the_cursor :
  parseSyntaxString 4 1 "ab" pair_grammar =
    Ret (Arr [Node (Num 0) NaN (Name "r") Undefined;
              Node (Num 0) NaN (Name "r") Undefined]) /\
  forall d steps s tt t1 t2 gm ci,
    processTokenValidator (S d) steps s tt (Combination [t1; t2]) gm ci =
    let* r1 := processTokenValidator d steps s tt t1 gm ci in
    if truthy r1 then
      let* r2 := processTokenValidator d steps s tt t2 gm ci in
      if truthy r2 then Ret (Arr [r1; r2]) else Ret JFalse
    else Ret JFalse.
Proof. split; [reflexivity | apply combination_of_two]. Qed.

(** [PROCESS_REGEX], called with its arguments in the order of its
    parameters, accepts a match that starts after the cursor. *)
Lemma PROCESS_REGEX_looks_ahead :
  matches_at re_digit "ab1" (Num 0) = false /\
  PROCESS_REGEX "ab1" (Name "digit") (AnyValidator (Pattern re_digit))
                (AnyIndex Undef) (Num 0) =
    Node (Num 0) (Num 0) (Name "digit") (Str "1").
Proof. split; reflexivity. Qed.

(** [/a/] matches ["a"] at cursor 0, and the parse answers Failure. *)
Lemma pattern_at_the_cursor_is_rejected :
  matches_at re_a "a" (Num 0) = true /\
  parseSyntaxString 2 1 "a" terminal_grammar = Ret JFalse.
Proof. split; reflexivity. Qed.

(** C2 (the code departs from it). [processTokenValidator] hands
    [currentIndex] to [PROCESS_REGEX] in the place of the pattern, so a
    pattern validator never matches: the answer is Failure for every
    pattern, input and cursor, also when the pattern matches the input at
    the cursor. *)
Theorem C2_pattern_validator_never_matches
    (d steps : nat) (s : string) (tt : tag) (re : RegExp)
    (gm : option BaseGrammarMapType) (ci : idx) :
  processTokenValidator (S d) steps s tt (Pattern re) gm ci = Ret JFalse.
Proof. apply processTokenValidator_pattern. Qed.

(** C8 (the code departs from it). On ["a"] the rule whose alternative is
    an optional [/a/] yields a node whose [endIndex] is [NaN]: the span
    invariant does not hold for it. *)
Theorem C8_quantified_node_has_no_end :
  parseSyntaxString 3 1 "a" optional_grammar =
    Ret (Node (Num 0) NaN (Name "r") Undefined) /\
  span_ok (Node (Num 0) NaN (Name "r") Undefined) = false.
Proof. split; reflexivity. Qed.

(** * Further properties of the code *)

(** ** [PROCESS_REGEX] on its own *)

Lemma get_drop_chars (k : nat) :
  forall (s : string) (n : nat),
    String.get n (drop_chars k s) = String.get (k + n) s.
Proof.
  induction k as [| k IH]; intros s n; [reflexivity |].
  destruct s as [| c rest]; simpl; [now destruct n | apply IH].
Qed.

Lemma slice_at_nat (s : string) (k : nat) :
  slice s (Num (Z.of_nat k)) = drop_chars k s.
Proof.
  unfold slice. destruct (Z.of_nat k <? 0)%Z eqn:Hneg.
  - apply Z.ltb_lt in Hneg. lia.
  - now rewrite Nat2Z.id.
Qed.

Lemma string_match_none (str : string) (re : RegExp) :
  string_match str re = None <-> forall n, class_at re str n = false.
Proof.
  unfold class_at. induction str as [| c rest IH]; simpl.
  - split; [intros _ n; now destruct n | reflexivity].
  - destruct (in_class re c) eqn:Hc.
    + split; [discriminate |]. intros H. specialize (H O). simpl in H.
      congruence.
    + rewrite IH. split.
      * intros H [| n]; simpl; [exact Hc | apply H].
      * intros H n. apply (H (S n)).
Qed.

Lemma string_match_leftmost (str : string) (re : RegExp) :
  forall (n : nat) (c : ascii),
    String.get n str = Some c -> in_class re c = true ->
    (forall j, (j < n)%nat -> class_at re str j = false) ->
    string_match str re = Some (String c EmptyString).
Proof.
  unfold class_at. induction str as [| a rest IH]; intros n c Hget Hc Hbefore.
  - now destruct n.
  - destruct n as [| n]; simpl in *.
    + injection Hget as ->. now rewrite Hc.
    + pose proof (Hbefore O ltac:(lia)) as H0. simpl in H0. rewrite H0.
      apply (IH n c Hget Hc). intros j Hj.
      apply (Hbefore (S j)). lia.
Qed.

(** X1. Called with its arguments in the order of its parameters,
    [PROCESS_REGEX] takes the leftmost character at or after the cursor
    that lies in the class: that character is the node's value, while the
    node's span is the cursor itself, wherever the character was
    found. *)
Theorem PROCESS_REGEX_takes_the_leftmost_match
    (s : string) (tt : tag) (re : RegExp) (g : any) (k n : nat) (c : ascii) :
  (k <= n)%nat ->
  String.get n s = Some c -> in_class re c = true ->
  (forall j, (k <= j < n)%nat -> class_at re s j = false) ->
  PROCESS_REGEX s tt (AnyValidator (Pattern re)) g (Num (Z.of_nat k)) =
    Node (Num (Z.of_nat k)) (Num (Z.of_nat k)) tt (Str (String c EmptyString)).
Proof.
  intros Hle Hget Hc Hbefore. unfold PROCESS_REGEX.
  rewrite slice_at_nat.
  rewrite (string_match_leftmost (drop_chars k s) re (n - k) c).
  - simpl. now rewrite Z.add_0_r.
  - rewrite get_drop_chars. now replace (k + (n - k))%nat with n by lia.
  - exact Hc.
  - intros j Hj. unfold class_at. rewrite get_drop_chars.
    apply (Hbefore (k + j)%nat). lia.
Qed.

(** On ["ab1"] at cursor 0 the digit found at position 2 is returned
    with the span 0..0. *)
Lemma PROCESS_REGEX_takes_the_leftmost_match_witness :
  PROCESS_REGEX "ab1" (Name "digit") (AnyValidator (Pattern re_digit))
                (AnyIndex Undef) (Num (Z.of_nat 0)) =
    Node (Num (Z.of_nat 0)) (Num (Z.of_nat 0)) (Name "digit") (Str "1").
Proof.
  apply (PROCESS_REGEX_takes_the_leftmost_match "ab1" (Name "digit") re_digit
           (AnyIndex Undef) 0 2 "1"%char).
  - lia.
  - reflexivity.
  - reflexivity.
  - intros j Hj. assert (j = 0 \/ j = 1)%nat as [-> | ->] by lia; reflexivity.
Defined.

(** X2. [PROCESS_REGEX] answers false exactly when no character at or
    after the cursor lies in the class; in particular it answers false
    at the end of the input and beyond. *)
Theorem PROCESS_REGEX_fails_iff_no_later_match
    (s : string) (tt : tag) (re : RegExp) (g : any) (k : nat) :
  (PROCESS_REGEX s tt (AnyValidator (Pattern re)) g (Num (Z.of_nat k)) = JFalse <->
   forall n, (k <= n)%nat -> class_at re s n = false) /\
  ((String.length s <= k)%nat ->
   PROCESS_REGEX s tt (AnyValidator (Pattern re)) g (Num (Z.of_nat k)) = JFalse).
Proof.
  assert (Hiff :
    PROCESS_REGEX s tt (AnyValidator (Pattern re)) g (Num (Z.of_nat k)) = JFalse <->
    forall n, (k <= n)%nat -> class_at re s n = false).
  { unfold PROCESS_REGEX. rewrite slice_at_nat.
    destruct (string_match (drop_chars k s) re) as [m |] eqn:Hm.
    - split; [discriminate |]. intros H.
      assert (Hnone : string_match (drop_chars k s) re = None).
      { apply string_match_none. intros n. unfold class_at.
        rewrite get_drop_chars. apply (H (k + n)%nat). lia. }
      congruence.
    - split; [| reflexivity]. intros _ n Hn.
      pose proof (proj1 (string_match_none _ _) Hm (n - k)%nat) as H.
      unfold class_at in *. rewrite get_drop_chars in H.
      now replace (k + (n - k))%nat with n in H by lia. }
  split; [exact Hiff |].
  intros Hlen. apply Hiff. intros n Hn. unfold class_at.
  destruct (String.get n s) as [c |] eqn:Hget; [| reflexivity].
  exfalso.
  assert (Hnone : String.get n s = None); [| congruence].
  clear Hget. revert n Hn Hlen. generalize k. clear.
  induction s as [| a rest IH]; intros k n Hn Hlen; [now destruct n |].
  simpl in Hlen. destruct n as [| n]; [lia |].
  simpl. apply (IH (k - 1)%nat); lia.
Qed.

Lemma PROCESS_REGEX_fails_iff_no_later_match_witness :
  PROCESS_REGEX "12" (Name "digit") (AnyValidator (Pattern re_digit))
                (AnyIndex Undef) (Num (Z.of_nat 2)) = JFalse.
Proof.
  apply (proj2 (PROCESS_REGEX_fails_iff_no_later_match "12" (Name "digit")
                  re_digit (AnyIndex Undef) 2)).
  simpl. lia.
Defined.



(** ** The processors on their own *)

(** X4. When the function they call returns, at a numeric cursor, only
    successes that start at the cursor and end no earlier than the cursor
    minus one, every success of the three processors satisfies
    [endIndex >= startIndex - 1]. *)
Theorem processors_keep_the_span_invariant
    (callee : string -> tag -> TokenValidator ->
              option BaseGrammarMapType -> idx -> outcome jsval)
    (s : string) (tt : tag) (tv : TokenValidator)
    (gm : option BaseGrammarMapType) (steps : nat) (z : Z) (v : jsval) :
  well_spanned callee ->
  (ZERO_OR_MORE_PROCESSOR callee s tt tv gm steps (Num z) = Ret v ->
   span_ok v = true) /\
  (ONE_OR_MORE_PROCESSOR callee s tt tv gm steps (Num z) = Ret v ->
   truthy v = true -> span_ok v = true) /\
  (ZERO_OR_ONE_PROCESSOR callee s tt tv gm (Num z) = Ret v ->
   truthy v = true -> span_ok v = true).
Proof.
  intros Hspans.
  destruct (repetition_nodes_keep_the_span callee Hspans s tt tv gm steps z v)
    as [Hz Ho].
  split; [exact Hz | split; [exact Ho |]].
  apply (optional_node_keeps_the_span callee Hspans).
Qed.

Lemma processors_keep_the_span_invariant_witness :
  span_ok (Node (Num 0) (Num 1) (Name "r")
                (Arr [Node (Num 0) (Num 0) (Name "r") (Str "a");
                      Node (Num 1) (Num 1) (Name "r") (Str "a")])) = true.
Proof.
  apply (proj1 (processors_keep_the_span_invariant regex_matcher "aab"
                  (Name "r") (Pattern re_a) None 5 0 _
                  regex_matcher_well_spanned)).
  reflexivity.
Defined.




(** X6. An error raised by an attempt of the inner validator leaves the
    three processors as it is: ZeroOrMore does not turn it into its empty
    result, and the matches collected before it are dropped. *)
Theorem processors_pass_errors_on
    (callee : string -> tag -> TokenValidator ->
              option BaseGrammarMapType -> idx -> outcome jsval)
    (s : string) (tt : tag) (tv : TokenValidator)
    (gm : option BaseGrammarMapType) (ci : idx) (e : error) :
  (forall steps rs c',
     repeats callee s tt tv gm ci rs c' ->
     callee s tt tv gm c' = Throw e ->
     (List.length rs < steps)%nat ->
     ZERO_OR_MORE_PROCESSOR callee s tt tv gm steps ci = Throw e /\
     ONE_OR_MORE_PROCESSOR callee s tt tv gm steps ci = Throw e) /\
  (callee s tt tv gm ci = Throw e ->
   ZERO_OR_ONE_PROCESSOR callee s tt tv gm ci = Throw e) /\
  (forall v, callee s tt tv gm ci = Ret v -> truthy v = true ->
     callee s tt tv gm (add1 (prop_endIndex v)) = Throw e ->
     ZERO_OR_ONE_PROCESSOR callee s tt tv gm ci = Throw e).
Proof.
  split; [| split].
  - intros steps rs c' Hrep He Hlt.
    unfold ZERO_OR_MORE_PROCESSOR, ONE_OR_MORE_PROCESSOR.
    rewrite (while_true_raises callee s tt tv gm ci c' rs e Hrep He steps []
               Hlt).
    split; reflexivity.
  - intros He. unfold ZERO_OR_ONE_PROCESSOR. now rewrite He.
  - intros v Hv Ht He. unfold ZERO_OR_ONE_PROCESSOR.
    rewrite Hv. simpl. rewrite Ht, He. reflexivity.
Qed.

(** In the engine, a reference to an undeclared rule as inner validator
    raises at the first attempt. *)
Lemma processors_pass_errors_on_witness :
  ZERO_OR_MORE_PROCESSOR (processTokenValidator 1 1) "" (Name "r")
    (TokenType "missing") (Some (map terminal_grammar)) 1 (Num 0) =
    Throw TypeError /\
  ZERO_OR_ONE_PROCESSOR (processTokenValidator 1 1) "" (Name "r")
    (TokenType "missing") (Some (map terminal_grammar)) (Num 0) =
    Throw TypeError.
Proof.
  split.
  - refine (proj1 (proj1 (processors_pass_errors_on
              (processTokenValidator 1 1) "" (Name "r") (TokenType "missing")
              (Some (map terminal_grammar)) (Num 0) TypeError)
              1%nat [] (Num 0) _ eq_refl _)).
    + apply repeats_nil.
    + simpl. lia.
  - exact (proj1 (proj2 (processors_pass_errors_on
              (processTokenValidator 1 1) "" (Name "r") (TokenType "missing")
              (Some (map terminal_grammar)) (Num 0) TypeError)) eq_refl).
Defined.

(** ** Combinations and rules in the engine *)

Section ForOfInversion.

Variable process : TokenValidator -> outcome jsval.

Lemma for_of_members_all (members : list TokenValidator) (rs : list jsval) :
  Forall2 (fun t r => process t = Ret r /\ truthy r = true) members rs ->
  forall acc, for_of_members process members acc = Ret (Arr (acc ++ rs)).
Proof.
  induction 1 as [| t r members rs [Hr Ht] _ IH]; intros acc; simpl.
  - now rewrite app_nil_r.
  - rewrite Hr. simpl. rewrite Ht, IH. now rewrite <- app_assoc.
Qed.

Lemma for_of_members_inv (members : list TokenValidator) :
  forall acc v,
    for_of_members process members acc = Ret v -> truthy v = true ->
    exists rs,
      v = Arr (acc ++ rs) /\
      Forall2 (fun t r => process t = Ret r /\ truthy r = true) members rs.
Proof.
  induction members as [| t rest IH]; intros acc v H Hv; simpl in H.
  - injection H as <-. exists []. split; [now rewrite app_nil_r | constructor].
  - destruct (process t) as [r | e |] eqn:Hr; simpl in H; try discriminate.
    destruct (truthy r) eqn:Ht; [| injection H as <-; discriminate].
    destruct (IH _ _ H Hv) as (rs & -> & Hall).
    exists (r :: rs). split; [now rewrite <- app_assoc |].
    constructor; [now split | exact Hall].
Qed.

Lemma for_of_options_inv (opts : list TokenValidator) (v : jsval) :
  for_of_options process opts = Ret v -> truthy v = true ->
  exists t, In t opts /\ process t = Ret v.
Proof.
  induction opts as [| t rest IH]; intros H Hv; simpl in H.
  - injection H as <-. discriminate.
  - destruct (process t) as [r | e |] eqn:Hr; simpl in H; try discriminate.
    destruct (truthy r) eqn:Ht.
    + injection H as <-. exists t. split; [now left | exact Hr].
    + destruct (IH H Hv) as (t' & Hin & Ht'). exists t'.
      split; [now right | exact Ht'].
Qed.

End ForOfInversion.

(** X7. A combination succeeds exactly when every member succeeds, all
    of them processed at the cursor of the combination; its result is then
    the array of the members' results, one for each member and in their
    order.  A member that fails after the members before it matched makes
    the combination answer false. *)
Theorem combination_matches_all_members_at_one_cursor
    (d steps : nat) (s : string) (tt : tag) (members : list TokenValidator)
    (gm : option BaseGrammarMapType) (ci : idx) :
  (forall rs,
     Forall2 (fun t r => processTokenValidator d steps s tt t gm ci = Ret r /\
                         truthy r = true) members rs ->
     processTokenValidator (S d) steps s tt (Combination members) gm ci =
       Ret (Arr rs)) /\
  (forall v,
     processTokenValidator (S d) steps s tt (Combination members) gm ci = Ret v ->
     truthy v = true ->
     exists rs,
       v = Arr rs /\
       Forall2 (fun t r => processTokenValidator d steps s tt t gm ci = Ret r /\
                           truthy r = true) members rs) /\
  (forall pre t post f,
     members = pre ++ t :: post ->
     (forall p, In p pre ->
        exists r, processTokenValidator d steps s tt p gm ci = Ret r /\
                  truthy r = true) ->
     processTokenValidator d steps s tt t gm ci = Ret f -> truthy f = false ->
     processTokenValidator (S d) steps s tt (Combination members) gm ci =
       Ret JFalse).
Proof.
  rewrite processTokenValidator_combination. split; [| split].
  - intros rs Hall.
    now rewrite (for_of_members_all _ members rs Hall []).
  - intros v H Hv. destruct (for_of_members_inv _ members [] v H Hv)
      as (rs & -> & Hall).
    now exists rs.
  - intros pre t post f -> Hpre Hf Hff.
    now apply (for_of_members_fails _ pre post t f).
Qed.

(** The two optional patterns of [pair_grammar] both succeed at cursor 0;
    a pattern after an optional pattern fails. *)
Lemma combination_matches_all_members_at_one_cursor_witness :
  processTokenValidator 3 1 "ab" (Name "r")
    (Combination [OptionsConfig (Pattern re_a) ZERO_OR_ONE;
                  OptionsConfig (Pattern re_b) ZERO_OR_ONE]) None (Num 0) =
    Ret (Arr [Node (Num 0) NaN (Name "r") Undefined;
              Node (Num 0) NaN (Name "r") Undefined]) /\
  processTokenValidator 3 1 "ab" (Name "r")
    (Combination [OptionsConfig (Pattern re_a) ZERO_OR_ONE; Pattern re_b])
    None (Num 0) = Ret JFalse.
Proof.
  split.
  - apply (proj1 (combination_matches_all_members_at_one_cursor 2 1 "ab"
                    (Name "r")
                    [OptionsConfig (Pattern re_a) ZERO_OR_ONE;
                     OptionsConfig (Pattern re_b) ZERO_OR_ONE] None (Num 0))).
    repeat constructor.
  - refine (proj2 (proj2 (combination_matches_all_members_at_one_cursor 2 1
                     "ab" (Name "r")
                     [OptionsConfig (Pattern re_a) ZERO_OR_ONE; Pattern re_b]
                     None (Num 0)))
            [OptionsConfig (Pattern re_a) ZERO_OR_ONE] (Pattern re_b) []
            JFalse eq_refl _ eq_refl eq_refl).
    intros p [<- | []]. eexists. split; reflexivity.
Defined.

(** X8. A reference to a declared rule all of whose alternatives fail
    answers false; so does a reference to a rule that has no alternative
    at all. *)
Theorem rule_fails_when_all_alternatives_fail
    (d steps : nat) (s : string) (tt : tag) (name : string)
    (m : BaseGrammarMapType) (ci : idx)
    (descriptor : GrammarMapTokenTypeDescriptor) :
  m !! name = Some descriptor ->
  (forall p, In p (options descriptor) ->
     exists f, processTokenValidator d steps s (Name name) p (Some m) ci = Ret f /\
               truthy f = false) ->
  processTokenValidator (S d) steps s tt (TokenType name) (Some m) ci =
    Ret JFalse.
Proof.
  intros Hm Hall. rewrite processTokenValidator_token_type, Hm.
  now apply for_of_options_all_fail.
Qed.

Lemma rule_fails_when_all_alternatives_fail_witness :
  parseSyntaxString 2 1 "a" terminal_grammar = Ret JFalse.
Proof.
  refine (rule_fails_when_all_alternatives_fail 1 1 "a" (Name "r") "r"
            (map terminal_grammar) (Num 0) {| options := [Pattern re_a] |}
            eq_refl _).
  intros p [<- | []]. exists JFalse. split; reflexivity.
Defined.

(** ** What the engine returns *)

Lemma for_of_members_ext (process process' : TokenValidator -> outcome jsval) :
  (forall t, process t = process' t) ->
  forall members acc,
    for_of_members process members acc = for_of_members process' members acc.
Proof.
  intros Hp members.
  induction members as [| t rest IH]; intros acc; simpl; [reflexivity |].
  rewrite Hp. destruct (process' t) as [r | e |]; simpl; try reflexivity.
  destruct (truthy r); [apply IH | reflexivity].
Qed.

Lemma for_of_options_ext (process process' : TokenValidator -> outcome jsval) :
  (forall t, process t = process' t) ->
  forall opts, for_of_options process opts = for_of_options process' opts.
Proof.
  intros Hp opts.
  induction opts as [| t rest IH]; simpl; [reflexivity |].
  rewrite Hp. destruct (process' t) as [r | e |]; simpl; try reflexivity.
  destruct (truthy r); [reflexivity | apply IH].
Qed.

Lemma processTokenValidator_same_for_every_input (d steps : nat) :
  forall s s' tt tv gm ci,
    processTokenValidator d steps s tt tv gm ci =
    processTokenValidator d steps s' tt tv gm ci.
Proof.
  induction d as [| d IH]; intros s s' tt tv gm ci; [reflexivity |].
  destruct tv as [name | re | t opt | members].
  - destruct gm as [m |]; [| reflexivity].
    rewrite !processTokenValidator_token_type.
    destruct (m !! name) as [descriptor |]; [| reflexivity].
    apply for_of_options_ext. intros t. apply IH.
  - reflexivity.
  - rewrite !processTokenValidator_options_config.
    assert (Hproc : alike
      (TOKEN_VALIDATOR_OPTION_PROCESSORS (processTokenValidator d steps) opt
         steps s (Index ci) t None Undef)
      (TOKEN_VALIDATOR_OPTION_PROCESSORS (processTokenValidator d steps) opt
         steps s' (Index ci) t None Undef)).
    { destruct opt; cbn [TOKEN_VALIDATOR_OPTION_PROCESSORS].
      - apply ZERO_OR_MORE_alike. intros c c'. apply processTokenValidator_alike.
      - apply ONE_OR_MORE_alike. intros c c'. apply processTokenValidator_alike.
      - apply ZERO_OR_ONE_alike. intros c c'. apply processTokenValidator_alike. }
    destruct (TOKEN_VALIDATOR_OPTION_PROCESSORS _ _ _ s _ _ _ _) as [r | e |],
             (TOKEN_VALIDATOR_OPTION_PROCESSORS _ _ _ s' _ _ _ _) as [r' | e' |];
      simpl in *; try contradiction; try congruence.
    now rewrite Hproc.
  - rewrite !processTokenValidator_combination.
    apply for_of_members_ext. intros t. apply IH.
Qed.

(** X9. The result of a parse does not depend on the text that is
    parsed: for one grammar, every input string gives the same outcome,
    down to the tree that is returned. *)
Theorem parse_result_is_the_same_for_every_input
    (d steps : nat) (s s' : string) (g : Grammar) :
  parseSyntaxString d steps s g = parseSyntaxString d steps s' g.
Proof. apply processTokenValidator_same_for_every_input. Qed.

Lemma processTokenValidator_hollow (d steps : nat) :
  forall s tt tv gm ci v,
    processTokenValidator d steps s tt tv gm ci = Ret v -> truthy v = true ->
    hollow ci v.
Proof.
  induction d as [| d IH]; intros s tt tv gm ci v H Hv; [discriminate |].
  destruct tv as [name | re | t opt | members].
  - destruct gm as [m |]; [| discriminate].
    rewrite processTokenValidator_token_type in H.
    destruct (m !! name) as [descriptor |];
      [| destruct (inherited name); [injection H as <- |]; discriminate].
    destruct (for_of_options_inv _ _ _ H Hv) as (t & _ & Ht).
    now apply (IH _ _ _ _ _ _ Ht).
  - rewrite processTokenValidator_pattern in H. injection H as <-.
    discriminate.
  - rewrite (options_config_result_tag _ _ _ _ _ _ _ _ _ H Hv).
    apply hollow_node.
  - rewrite processTokenValidator_combination in H.
    destruct (for_of_members_inv _ _ _ _ H Hv) as (rs & -> & Hall).
    apply hollow_arr. simpl. clear H Hv.
    induction Hall as [| t r members rs [Hr Ht] _ IHall]; constructor.
    + now apply (IH _ _ _ _ _ _ Hr).
    + exact IHall.
Qed.

Lemma for_of_options_falsy (process : TokenValidator -> outcome jsval)
    (opts : list TokenValidator) (v : jsval) :
  for_of_options process opts = Ret v -> truthy v = false -> v = JFalse.
Proof.
  induction opts as [| t rest IH]; simpl; intros H Hv.
  - now injection H as <-.
  - destruct (process t) as [r | e |]; simpl in H; try discriminate.
    destruct (truthy r) eqn:Ht; [| now apply IH].
    injection H as <-. congruence.
Qed.

Lemma for_of_members_falsy (process : TokenValidator -> outcome jsval)
    (members : list TokenValidator) :
  forall acc v,
    for_of_members process members acc = Ret v -> truthy v = false ->
    v = JFalse.
Proof.
  induction members as [| t rest IH]; simpl; intros acc v H Hv.
  - injection H as <-. discriminate.
  - destruct (process t) as [r | e |]; simpl in H; try discriminate.
    destruct (truthy r); [now apply (IH _ _ H) | now injection H as <-].
Qed.

Lemma processTokenValidator_falsy (d steps : nat) (s : string) (tt : tag)
    (tv : TokenValidator) (gm : option BaseGrammarMapType) (ci : idx)
    (v : jsval) :
  processTokenValidator d steps s tt tv gm ci = Ret v -> truthy v = false ->
  v = JFalse.
Proof.
  destruct d as [| d]; [discriminate |].
  destruct tv as [name | re | t opt | members]; intros H Hv.
  - destruct gm as [m |]; [| discriminate].
    rewrite processTokenValidator_token_type in H.
    destruct (m !! name) as [descriptor |];
      [| destruct (inherited name); [now injection H as <- | discriminate]].
    now apply (for_of_options_falsy _ _ _ H).
  - rewrite processTokenValidator_pattern in H. now injection H as <-.
  - rewrite processTokenValidator_options_config in H.
    destruct (TOKEN_VALIDATOR_OPTION_PROCESSORS _ _ _ _ _ _ _ _) as [r | e |];
      simpl in H; try discriminate.
    destruct (truthy r); injection H as <-; [discriminate | reflexivity].
  - rewrite processTokenValidator_combination in H.
    now apply (for_of_members_falsy _ _ _ _ H).
Qed.

(** X10. What the engine returns is [false] or a hollow success: each
    node of the tree starts at the cursor the match was started at, has
    [NaN] as its [endIndex] and [undefined] as its value, so no matched
    text and no position after the start is ever reported. *)
Theorem engine_results_are_hollow
    (d steps : nat) (s : string) (tt : tag) (tv : TokenValidator)
    (gm : option BaseGrammarMapType) (ci : idx) (v : jsval) :
  processTokenValidator d steps s tt tv gm ci = Ret v ->
  v = JFalse \/ (truthy v = true /\ hollow ci v).
Proof.
  intros H. destruct (truthy v) eqn:Hv.
  - right. split; [reflexivity |].
    now apply (processTokenValidator_hollow d steps s tt tv gm ci).
  - left. now apply (processTokenValidator_falsy d steps s tt tv gm ci).
Qed.

Lemma engine_results_are_hollow_witness :
  hollow (Num 0) (Arr [Node (Num 0) NaN (Name "r") Undefined;
                       Node (Num 0) NaN (Name "r") Undefined]).
Proof.
  destruct (engine_results_are_hollow 4 1 "ab" (Name "r") (TokenType "r")
              (Some (map pair_grammar)) (Num 0) _ eq_refl) as [H | [_ H]].
  - discriminate H.
  - exact H.
Defined.

Lemma processTokenValidator_rule_tagged (m : BaseGrammarMapType)
    (d steps : nat) :
  forall s tt tv ci v,
    (exists name, tv = TokenType name) \/
    (exists name, tt = Name name /\ is_Some (m !! name)) ->
    processTokenValidator d steps s tt tv (Some m) ci = Ret v ->
    truthy v = true ->
    rule_tagged m v.
Proof.
  induction d as [| d IH]; intros s tt tv ci v Htt H Hv; [discriminate |].
  destruct tv as [name | re | t opt | members].
  - rewrite processTokenValidator_token_type in H.
    destruct (m !! name) as [descriptor |] eqn:Hm;
      [| destruct (inherited name); [injection H as <- |]; discriminate].
    destruct (for_of_options_inv _ _ _ H Hv) as (t & _ & Ht).
    apply (IH _ _ _ _ _ (or_intror (ex_intro _ name
             (conj eq_refl (ex_intro _ descriptor Hm)))) Ht Hv).
  - rewrite processTokenValidator_pattern in H. injection H as <-.
    discriminate.
  - rewrite (options_config_result_tag _ _ _ _ _ _ _ _ _ H Hv).
    destruct Htt as [(name & Heq) | (name & -> & Hname)]; [discriminate |].
    now apply rule_tagged_node.
  - rewrite processTokenValidator_combination in H.
    destruct (for_of_members_inv _ _ _ _ H Hv) as (rs & -> & Hall).
    destruct Htt as [(name & Heq) | Htag]; [discriminate |].
    apply rule_tagged_arr. simpl. clear H Hv.
    induction Hall as [| t r members' rs [Hr Ht] _ IHall]; constructor.
    + apply (IH _ _ _ _ _ (or_intror Htag) Hr Ht).
    + exact IHall.
Qed.

(** X17. Every node of the tree that a parse returns is tagged with the
    name of a rule declared in the grammar: the name of the innermost
    rule that was referenced on the way to the node. *)
Theorem parse_tags_are_declared_rules
    (d steps : nat) (s : string) (g : Grammar) (v : jsval) :
  parseSyntaxString d steps s g = Ret v -> truthy v = true ->
  rule_tagged (map g) v.
Proof.
  unfold parseSyntaxString. intros H Hv.
  apply (processTokenValidator_rule_tagged (map g) d steps s
           (Name (entry g)) (TokenType (entry g)) (Num 0) v); auto.
  left. now exists (entry g).
Qed.

Lemma parse_tags_are_declared_rules_witness :
  rule_tagged (map nested_grammar) (Node (Num 0) NaN (Name "x") Undefined).
Proof.
  apply (parse_tags_are_declared_rules 4 1 "" nested_grammar).
  - reflexivity.
  - reflexivity.
Defined.

(** ** Quantified validators in the engine *)

Lemma options_config_token_type (d n : nat) (s : string) (tt : tag)
    (name : string) (opt : TokenProcessorOptionTypes)
    (gm : option BaseGrammarMapType) (ci : idx) :
  processTokenValidator (S (S d)) (S n) s tt
    (OptionsConfig (TokenType name) opt) gm ci = Throw TypeError.
Proof. destruct opt; reflexivity. Qed.

(** X11. A quantified rule reference raises a [TypeError] whatever the
    grammar holds: the processor is called without the grammar map, so
    the rule is looked up in [undefined], also when the rule is
    declared. *)
Theorem quantified_rule_reference_raises
    (d n : nat) (s : string) (tt : tag) (name : string)
    (opt : TokenProcessorOptionTypes) (gm : option BaseGrammarMapType)
    (ci : idx) :
  processTokenValidator (S (S d)) (S n) s tt
    (OptionsConfig (TokenType name) opt) gm ci = Throw TypeError.
Proof. apply options_config_token_type. Qed.

(** X12. A quantified pattern never reads the input: with ['*'] and
    ['?'] it always succeeds with the node [{startIndex: cursor,
    endIndex: NaN, value: undefined}], with ['+'] it always fails. *)
Theorem quantified_pattern_ignores_the_input
    (d n : nat) (s : string) (tt : tag) (re : RegExp)
    (opt : TokenProcessorOptionTypes) (gm : option BaseGrammarMapType)
    (ci : idx) :
  processTokenValidator (S (S d)) (S n) s tt
    (OptionsConfig (Pattern re) opt) gm ci =
  match opt with
  | ONE_OR_MORE => Ret JFalse
  | ZERO_OR_MORE | ZERO_OR_ONE => Ret (Node ci NaN tt Undefined)
  end.
Proof. destruct opt; reflexivity. Qed.

(** X13. In the engine, once the inner validator of a quantifier matches
    at one cursor (it then matches at every cursor), ZeroOrMore and
    OneOrMore never come to an end and ZeroOrOne answers false. *)
Theorem matching_inner_validator_stalls_the_quantifiers
    (d steps : nat) (s : string) (tt : tag) (tv : TokenValidator)
    (gm : option BaseGrammarMapType) (ci : idx) (v : jsval) :
  processTokenValidator d steps s tt tv gm ci = Ret v -> truthy v = true ->
  (forall n c,
     ZERO_OR_MORE_PROCESSOR (processTokenValidator d steps) s tt tv gm n c =
       OutOfSteps /\
     ONE_OR_MORE_PROCESSOR (processTokenValidator d steps) s tt tv gm n c =
       OutOfSteps) /\
  (forall c,
     ZERO_OR_ONE_PROCESSOR (processTokenValidator d steps) s tt tv gm c =
       Ret JFalse).
Proof. apply engine_repetition_after_a_match. Qed.

(** The empty combination matches everywhere. *)
Lemma matching_inner_validator_stalls_the_quantifiers_witness :
  (forall n c,
     ZERO_OR_MORE_PROCESSOR (processTokenValidator 1 1) "" (Name "r")
                            (Combination []) None n c = OutOfSteps /\
     ONE_OR_MORE_PROCESSOR (processTokenValidator 1 1) "" (Name "r")
                           (Combination []) None n c = OutOfSteps) /\
  (forall c,
     ZERO_OR_ONE_PROCESSOR (processTokenValidator 1 1) "" (Name "r")
                           (Combination []) None c = Ret JFalse).
Proof.
  exact (matching_inner_validator_stalls_the_quantifiers 1 1 "" (Name "r")
           (Combination []) None (Num 0) (Arr []) eq_refl eq_refl).
Defined.

(** ** Recursion *)

(** X14. A rule whose first alternative is a reference to the rule itself
    uses up the call stack, however large, before any other alternative
    is tried. *)
Theorem left_recursive_rule_exhausts_every_stack
    (d steps : nat) (s : string) (tt : tag) (name : string)
    (m : BaseGrammarMapType) (ci : idx)
    (descriptor : GrammarMapTokenTypeDescriptor)
    (rest : list TokenValidator) :
  m !! name = Some descriptor ->
  options descriptor = TokenType name :: rest ->
  processTokenValidator d steps s tt (TokenType name) (Some m) ci =
    Throw RangeError.
Proof.
  intros Hm Hopts. revert tt.
  induction d as [| d IH]; intros tt; [reflexivity |].
  rewrite processTokenValidator_token_type, Hm, Hopts.
  cbn [for_of_options]. now rewrite IH.
Qed.

Lemma left_recursive_rule_exhausts_every_stack_witness :
  parseSyntaxString 1000 1 "a" left_recursive_grammar = Throw RangeError.
Proof.
  exact (left_recursive_rule_exhausts_every_stack 1000 1 "a" (Name "r") "r"
           (map left_recursive_grammar) (Num 0)
           {| options := [TokenType "r"] |} [] eq_refl eq_refl).
Defined.

(** ** The grammar of SVG polygon points *)

Lemma SVGPolygonPointsGrammarMap_entry :
  SVGPolygonPointsGrammarMap !! "list_of_points" =
  Some {| options :=
            [Combination [OptionsConfig (TokenType "wsp") ZERO_OR_MORE;
                          OptionsConfig (TokenType "coordinate_pairs") ZERO_OR_ONE;
                          OptionsConfig (TokenType "wsp") ZERO_OR_MORE]] |}.
Proof. vm_compute. reflexivity. Qed.

(** X15. With the grammar of SVG polygon points the parse raises a
    [TypeError] on every input string, as soon as the stack holds four
    activations: the first member of its entry rule is a quantified rule
    reference. *)
Theorem SVG_polygon_points_parse_raises_on_every_input
    (d n : nat) (s : string) :
  parseSyntaxString (S (S (S (S d)))) (S n) s SVGPolygonPointsGrammar =
    Throw TypeError.
Proof.
  unfold parseSyntaxString.
  rewrite processTokenValidator_token_type.
  change (map SVGPolygonPointsGrammar) with SVGPolygonPointsGrammarMap.
  change (entry SVGPolygonPointsGrammar) with "list_of_points".
  rewrite SVGPolygonPointsGrammarMap_entry.
  cbn [for_of_options options].
  rewrite processTokenValidator_combination.
  cbn [for_of_members]. now rewrite options_config_token_type.
Qed.

(** X16. The grammar of SVG polygon points is closed: every rule name
    that an alternative of one of its rules refers to is a key of its
    map. *)
Theorem SVG_polygon_points_rules_are_all_declared
    (name : string) (descriptor : GrammarMapTokenTypeDescriptor)
    (t : TokenValidator) (r : string) :
  SVGPolygonPointsGrammarMap !! name = Some descriptor ->
  In t (options descriptor) ->
  In r (references t) ->
  is_Some (SVGPolygonPointsGrammarMap !! r).
Proof.
  intros Hm Ht Hr. unfold SVGPolygonPointsGrammarMap in Hm.
  apply elem_of_list_to_map_2 in Hm.
  repeat (apply elem_of_cons in Hm; destruct Hm as [Hm | Hm]);
    [.. | now apply elem_of_nil in Hm];
    injection Hm as -> ->; simpl in Ht;
    repeat (destruct Ht as [Ht | Ht]); try contradiction; subst t;
    simpl in Hr;
    repeat (destruct Hr as [Hr | Hr]); try contradiction; subst r;
    vm_compute; eexists; reflexivity.
Qed.

Lemma SVG_polygon_points_rules_are_all_declared_witness :
  is_Some (SVGPolygonPointsGrammarMap !! "digit_sequence").
Proof.
  refine (SVG_polygon_points_rules_are_all_declared "digit_sequence"
            {| options :=
                 [TokenType "digit";
                  Combination [TokenType "digit"; TokenType "digit_sequence"]] |}
            (Combination [TokenType "digit"; TokenType "digit_sequence"])
            "digit_sequence" _ _ _).
  - vm_compute. reflexivity.
  - right. left. reflexivity.
  - right. left. reflexivity.
Defined.
